(** * nnet-matrix-viz: architecture state model and formula engine

    A shallow embedding of the logic of [src/App.jsx]: the layer list
    held by the [App] component, its mutation handlers, the parameter
    accountant [computeParams], the composition string [compTex], the
    loss catalogue [LOSSES] and the loss selection of [LossPanel].

    Conventions.
    - JavaScript numbers that hold layer widths, the selected index and
      the output width are integers far below 2^53, so they are modelled
      by [Z]; array positions and lengths are [nat].
    - A React state variable updated with [setX(prev => f prev)] is
      modelled by explicit state passing: a handler is a function from
      the component state before the event to the state after it, and the
      values a handler closes over ([n], [isAtMaxLayers], ...) are those
      of the render of that same state.
    - Template literals are string concatenations; the source writes a
      backslash as two characters inside a template, the string holds
      one.
    - [seedVal] (lines 173-176) is floating-point arithmetic on
      [Math.sin] and is left out. *)

From Stdlib Require Import ZArith Lia Reals Lra.
From stdpp Require Import base list strings pretty gmap.

Local Open Scope Z_scope.

(** ** Constants (App.jsx, lines 51 and 66-69) *)

Definition ACTIVATIONS : list string := ["ReLU"; "Sigmoid"; "Tanh"; "Linear"].

Definition MAX_NODES : Z := 8.
Definition MIN_NODES : Z := 1.
Definition MAX_LAYERS : nat := 6.

(** ** Layers *)

Record Layer := mkLayer { nodes : Z; activation : string }.

Definition defaultLayers : list Layer :=
  [ mkLayer 3 "Linear"; mkLayer 5 "ReLU"; mkLayer 4 "Tanh"; mkLayer 2 "Softmax" ].

(** ** computeParams (lines 161-171) *)

Record BreakdownRow := mkRow { layer : nat; nin : Z; nout : Z; W : Z; B : Z }.

Record Params := mkParams
  { totalW : Z; totalB : Z; total : Z; breakdown : list BreakdownRow }.

(** The three variables the loop of [computeParams] updates. *)
Record ParamsAcc := mkAcc { accW : Z; accB : Z; accRows : list BreakdownRow }.

(** [for (let i = start; ...; i++) body], run for [count] iterations. *)
Fixpoint for_up {St : Type} (start count : nat) (body : nat → St → St) (s : St) : St :=
  match count with
  | O => s
  | S k => for_up (S start) k body (body start s)
  end.

(** One iteration.  Inside the loop [1 <= i < layers.length], so both
    reads are in range; the last branch is never taken there. *)
Definition computeParams_body (lrs : list Layer) (i : nat) (acc : ParamsAcc) : ParamsAcc :=
  match lrs !! (i - 1)%nat, lrs !! i with
  | Some lin, Some lout =>
      let nin := nodes lin in
      let nout := nodes lout in
      let W := nin * nout in
      let B := nout in
      mkAcc (accW acc + W) (accB acc + B) (accRows acc ++ [mkRow i nin nout W B])
  | _, _ => acc
  end.

Definition computeParams (lrs : list Layer) : Params :=
  let acc := for_up 1 (length lrs - 1) (computeParams_body lrs) (mkAcc 0 0 []) in
  mkParams (accW acc) (accB acc) (accW acc + accB acc) (accRows acc).

(** Sum of a list of integers. *)
Definition Zsum (l : list Z) : Z := foldr Z.add 0 l.

(** ** The App component: state and handlers (lines 758-794) *)

(** The two state variables of [App] the handlers write:
    [layers] and the selected layer index [sel]. *)
Record AppState := mkApp { layers : list Layer; sel : Z }.

Definition initialApp : AppState := mkApp defaultLayers 1.

(** [const n = layers.length] and the two flags derived from it. *)
Definition layerCount (st : AppState) : nat := length (layers st).
Definition isAtMaxLayers (st : AppState) : bool := bool_decide (MAX_LAYERS ≤ layerCount st)%nat.
Definition isAtMinLayers (st : AppState) : bool := bool_decide (layerCount st ≤ 3)%nat.

(** [outputNodes = layers[n - 1].nodes]; reading it on an empty array
    would raise a TypeError, hence the option. *)
Definition outputNodes (st : AppState) : option Z :=
  match layerCount st with
  | O => None
  | S k => nodes <$> layers st !! k
  end.

Definition reset (_ : AppState) : AppState := mkApp defaultLayers 1.

(** [arr.splice(start, 0, item)] on a copy: a negative [start] counts
    from the end and is clamped at 0, a [start] beyond the length is
    clamped to the length. *)
Definition splice_insert {A : Type} (start : Z) (item : A) (l : list A) : list A :=
  let len := Z.of_nat (length l) in
  let actualStart := if start <? 0 then Z.max (len + start) 0 else Z.min start len in
  take (Z.to_nat actualStart) l ++ item :: drop (Z.to_nat actualStart) l.

Definition addLayer (st : AppState) : AppState :=
  if isAtMaxLayers st then st
  else
    let prev := layers st in
    mkApp (splice_insert (Z.of_nat (length prev) - 1) (mkLayer 4 "ReLU") prev) (sel st).

(** [arr.filter((x, i) => p x i)]. *)
Fixpoint filter_from {A : Type} (i : nat) (p : A → nat → bool) (l : list A) : list A :=
  match l with
  | [] => []
  | x :: l' => if p x i then x :: filter_from (S i) p l' else filter_from (S i) p l'
  end.
Definition js_filter {A : Type} (p : A → nat → bool) (l : list A) : list A :=
  filter_from 0 p l.

Definition removeLayer (idx : nat) (st : AppState) : AppState :=
  let n := Z.of_nat (layerCount st) in
  mkApp (js_filter (λ _ i, negb (i =? idx)%nat) (layers st))
        (Z.max 1 (Z.min (sel st) (n - 3))).

(** [arr.map((l, i) => ...)] is stdpp's [imap], the index first. *)
Definition updateNodes (idx : nat) (delta : Z) (st : AppState) : AppState :=
  mkApp (imap (λ i l,
           if (i =? idx)%nat
           then mkLayer (Z.max MIN_NODES (Z.min MAX_NODES (nodes l + delta))) (activation l)
           else l) (layers st))
        (sel st).

Definition updateAct (idx : nat) (act : string) (st : AppState) : AppState :=
  mkApp (imap (λ i l, if (i =? idx)%nat then mkLayer (nodes l) act else l) (layers st))
        (sel st).

(** ** LayerCard: the controls that reach the handlers (lines 690-741)

    [App] renders one card per layer, with [index] its position and
    [total = n].  The activation select and the remove button are
    rendered only for a card that is neither the input nor the output
    card; an event on a control that is not rendered cannot happen, which
    the model writes as the state staying as it is. *)

Definition isInput (index : nat) : bool := (index =? 0)%nat.
Definition isOutput (index total : nat) : bool := Z.of_nat index =? Z.of_nat total - 1.

(** [onClick={e => { ...; if (!isAtMinLayers) onRemove(); }}] with
    [onRemove = () => removeLayer(li)]. *)
Definition LayerCard_remove_onClick (index : nat) (st : AppState) : AppState :=
  match layers st !! index with
  | None => st
  | Some _ =>
      if negb (isInput index) && negb (isOutput index (layerCount st))
      then (if negb (isAtMinLayers st) then removeLayer index st else st)
      else st
  end.

(** [onChange={e => { ...; onActivation(e.target.value); }}] with
    [onActivation = act => updateAct(li, act)]. *)
Definition LayerCard_select_onChange (index : nat) (act : string) (st : AppState) : AppState :=
  match layers st !! index with
  | None => st
  | Some _ =>
      if negb (isInput index) && negb (isOutput index (layerCount st))
      then updateAct index act st
      else st
  end.

(** How a call ends.  No handler of the source contains a [throw]: every
    one of them returns.  The error kinds are the ones the specification
    names, listed so that "fails with InvalidOperation" can be compared
    with what the handlers do. *)
Inductive ErrorKind := InvalidOperation | IndexOutOfRange | OutOfRange.
Inductive Outcome (A : Type) :=
  | Returned (a : A)
  | Thrown (e : ErrorKind).
Arguments Returned {A} a.
Arguments Thrown {A} e.

Definition removeHiddenLayer (index : nat) (st : AppState) : Outcome AppState :=
  Returned (LayerCard_remove_onClick index st).
Definition setActivation (index : nat) (act : string) (st : AppState) : Outcome AppState :=
  Returned (LayerCard_select_onChange index act st).

(** A sequence of [updateNodes(idx, delta)] calls, oldest first. *)
Definition updateNodes_many (calls : list (nat * Z)) (st : AppState) : AppState :=
  foldl (λ s c, updateNodes c.1 c.2 s) st calls.

Definition widths (st : AppState) : list Z := nodes <$> layers st.
Definition width_ok (w : Z) : Prop := MIN_NODES ≤ w ≤ MAX_NODES.

(** ** compTex: the composition string (lines 796-807) *)

(** [for (let i = start; i >= 1; i--) body]. *)
Fixpoint for_down {St : Type} (start : nat) (body : nat → St → St) (s : St) : St :=
  match start with
  | O => s
  | S k => for_down k body (body (S k) s)
  end.

Definition compTex_fn (ac : string) : string :=
  if String.eqb ac "Softmax"
  then "\operatorname{softmax}"
  else "\sigma_{\scriptscriptstyle\text{" +:+ ac +:+ "}}".

(** [`${fn}\\!\\bigl(W^{(${i})}${inner} + b^{(${i})}\\bigr)`] *)
Definition compTex_wrap (fn : string) (i : nat) (inner : string) : string :=
  fn +:+ "\!\bigl(W^{(" +:+ pretty i +:+ ")}" +:+ inner
     +:+ " + b^{(" +:+ pretty i +:+ ")}\bigr)".

(** One iteration; [1 <= i <= n - 1], so [layers[i]] is in range. *)
Definition compTex_body (lrs : list Layer) (i : nat) (inner : string) : string :=
  match lrs !! i with
  | Some l => compTex_wrap (compTex_fn (activation l)) i inner
  | None => inner
  end.

Definition compTex_inner (lrs : list Layer) : string :=
  for_down (length lrs - 1) (compTex_body lrs) "x".

Definition compTex (lrs : list Layer) : string :=
  "f(x) = " +:+ compTex_inner lrs.

(** The nesting the per-layer equations of [TransformCard] (lines
    285-286: z(l) = W(l) a(l-1) + b(l), a(l) = sigma(z(l))) and the output
    equation of [LossPanel] (line 477: yhat = softmax(z(L))) describe:
    layer 1 applied to [x] first, the output layer last.  [forward_from i
    ls inner] applies the layers [ls], numbered from [i], to [inner]. *)
Fixpoint forward_from (i : nat) (ls : list Layer) (inner : string) : string :=
  match ls with
  | [] => inner
  | l :: ls' => forward_from (S i) ls' (compTex_wrap (compTex_fn (activation l)) i inner)
  end.
Definition forward_nesting (lrs : list Layer) : string :=
  "f(x) = " +:+ forward_from 1 (tail lrs) "x".

(** Does [s] begin with [p]? *)
Fixpoint starts_with (p s : string) : bool :=
  match p, s with
  | EmptyString, _ => true
  | String a p', String b s' => if Ascii.eqb a b then starts_with p' s' else false
  | String _ _, EmptyString => false
  end.

(** ** Numbers of the gamma slider

    The focusing exponent is set by a range input with [min 0], [max 5]
    and [step 0.5] (line 126), read back with [parseFloat]: [p.gamma] is
    a multiple of one half.  Such numbers, and [p.gamma - 1] and
    [Math.max(0, .)] on them, are exact in binary floating point.  The
    number [h/2] is represented by the integer [h]. *)
Record Half := mkHalf { twice : Z }.

Definition Half_of_Z (z : Z) : Half := mkHalf (2 * z).
Definition Half_sub (a b : Half) : Half := mkHalf (twice a - twice b).
Definition Half_max (a b : Half) : Half := mkHalf (Z.max (twice a) (twice b)).

(** Number-to-string conversion of a template literal: ["2"], ["0.5"],
    ["-1.5"]. *)
Definition Half_toString (h : Half) : string :=
  let a := Z.abs (twice h) in
  (if twice h <? 0 then "-" else "") +:+ pretty (a / 2) +:+ (if Z.odd a then ".5" else "").

Definition Half_toR (h : Half) : R := (IZR (twice h) / 2)%R.

(** ** The loss catalogue (lines 80-158) *)

Inductive LossKey := ce | bce | focal | ls.

(** The hyperparameters formulas read.  ([eps] is read by the full
    formula and the note of [ls] only, which are not modelled.) *)
Record LossParams := mkLossParams { gamma : Half }.

Record Loss := mkLoss
  { label : string;
    tag : string;
    requiresBinary : bool;
    gradFormula : Z → LossParams → string }.

Definition LOSSES (key : LossKey) : Loss :=
  match key with
  | ce =>
      mkLoss "Cross-Entropy" "Standard multiclass" false
        (λ _ _, "\frac{\partial \mathcal{L}}{\partial z^{(L)}_i} = \hat{y}_i - y_i")
  | bce =>
      mkLoss "Binary CE" "Binary (K = 2)" true
        (λ _ _, "\frac{\partial \mathcal{L}}{\partial z} = \hat{y} - y")
  | focal =>
      mkLoss "Focal Loss" "Class imbalance" false
        (λ _ p,
           "\frac{\partial \mathcal{L}}{\partial z_i} = (1-\hat{y}_{y^*})^{"
           +:+ Half_toString (gamma p)
           +:+ "}(\hat{y}_i - y_i) - "
           +:+ Half_toString (gamma p)
           +:+ "(1-\hat{y}_{y^*})^{"
           +:+ Half_toString (Half_max (Half_of_Z 0) (Half_sub (gamma p) (Half_of_Z 1)))
           +:+ "}\log(\hat{y}_{y^*})\hat{y}_{y^*}(\delta_{i,y^*} - \hat{y}_i)")
  | ls =>
      mkLoss "Label Smoothing" "Regularisation" false
        (λ _ _, "\frac{\partial \mathcal{L}}{\partial z^{(L)}_i} = \hat{y}_i - \tilde{y}_i")
  end.

(** ** Reading a gradient formula

    A small syntax for the right-hand sides the catalogue prints, with
    the string it is printed as ([render]) and the real number it stands
    for ([denote]).  Juxtaposition is a product, [^{.}] a real power. *)
Inductive Sym := yhat_i | y_i | yhat_star | delta_i_star.

Inductive Tex :=
  | TSym (s : Sym)
  | TNum (h : Half)
  | TMinus (a b : Tex)          (* a - b, with spaces *)
  | TMinusTight (a b : Tex)     (* a-b *)
  | TParen (a : Tex)
  | TJuxt (a b : Tex)
  | TPow (a b : Tex)
  | TLog (a : Tex).

Definition render_sym (s : Sym) : string :=
  match s with
  | yhat_i => "\hat{y}_i"
  | y_i => "y_i"
  | yhat_star => "\hat{y}_{y^*}"
  | delta_i_star => "\delta_{i,y^*}"
  end.

Fixpoint render (t : Tex) : string :=
  match t with
  | TSym s => render_sym s
  | TNum h => Half_toString h
  | TMinus a b => render a +:+ " - " +:+ render b
  | TMinusTight a b => render a +:+ "-" +:+ render b
  | TParen a => "(" +:+ render a +:+ ")"
  | TJuxt a b => render a +:+ render b
  | TPow a b => render a +:+ "^{" +:+ render b +:+ "}"
  | TLog a => "\log(" +:+ render a +:+ ")"
  end.

Fixpoint denote (env : Sym → R) (t : Tex) : R :=
  match t with
  | TSym s => env s
  | TNum h => Half_toR h
  | TMinus a b | TMinusTight a b => (denote env a - denote env b)%R
  | TParen a => denote env a
  | TJuxt a b => (denote env a * denote env b)%R
  | TPow a b => Rpower (denote env a) (denote env b)
  | TLog a => ln (denote env a)
  end.

(** The residual [yhat_i - y_i]. *)
Definition residual : Tex := TMinus (TSym yhat_i) (TSym y_i).

(** The power [(1 - yhat_star)^{e}]. *)
Definition one_minus_pow (e : Half) : Tex :=
  TPow (TParen (TMinusTight (TNum (Half_of_Z 1)) (TSym yhat_star))) (TNum e).

(** The modulating factor [(1 - yhat_star)^{gamma}]. *)
Definition focal_modulating (g : Half) : Tex := one_minus_pow g.

(** The correction term
    [gamma (1 - yhat_star)^{max(0, gamma - 1)} log(yhat_star) yhat_star
    (delta - yhat_i)]. *)
Definition focal_correction (g : Half) : Tex :=
  TJuxt (TNum g)
    (TJuxt (one_minus_pow (Half_max (Half_of_Z 0) (Half_sub g (Half_of_Z 1))))
       (TJuxt (TLog (TSym yhat_star))
          (TJuxt (TSym yhat_star)
             (TParen (TMinus (TSym delta_i_star) (TSym yhat_i)))))).

Definition focal_grad_rhs (g : Half) : Tex :=
  TMinus (TJuxt (focal_modulating g) (TParen residual)) (focal_correction g).

Definition focal_grad_lhs : string := "\frac{\partial \mathcal{L}}{\partial z_i}".
Definition ce_grad_lhs : string := "\frac{\partial \mathcal{L}}{\partial z^{(L)}_i}".

(** ** LossPanel: the loss selection (lines 386-397 and 409-416) *)

Record LossPanelState := mkPanel { lossKey : LossKey; params : LossParams }.

Definition initialPanel : LossPanelState := mkPanel ce (mkLossParams (Half_of_Z 2)).

(** [K !== 2] *)
Definition not_two (K : Z) : bool := negb (K =? 2).

Definition isDisabled (K : Z) (key : LossKey) : bool :=
  requiresBinary (LOSSES key) && not_two K.

(** The body of the effect with dependencies [K, lossKey]. *)
Definition LossPanel_effect (K : Z) (st : LossPanelState) : LossPanelState :=
  if requiresBinary (LOSSES (lossKey st)) && not_two K
  then mkPanel ce (params st)
  else st.

(** [onClick={() => { if (!disabled) setLossKey(key); }}] *)
Definition LossPanel_onClick (K : Z) (key : LossKey) (st : LossPanelState) : LossPanelState :=
  if negb (isDisabled K key) then mkPanel key (params st) else st.

(** The two transitions of the loss selection.  [select] is a click on
    the button of [key]; a click that is refused sets no state, so nothing
    is rendered and no effect runs.  [architectureChanged] is a render
    with a new [K], after which React runs the effect.  (The effect also
    runs after a click that changed [lossKey]; see
    [LossPanel_effect_after_click].) *)
Definition select (K : Z) (key : LossKey) (st : LossPanelState) : LossPanelState :=
  LossPanel_onClick K key st.

Definition architectureChanged (newK : Z) (st : LossPanelState) : LossPanelState :=
  LossPanel_effect newK st.

(** ** Closed forms of the two loops, used in the proofs *)

(** The rows of the transitions between consecutive widths [ws], the
    first one numbered [i]. *)
Fixpoint transition_rows (i : nat) (ws : list Z) : list BreakdownRow :=
  match ws with
  | a :: (b :: _) as ws' => mkRow i a b (a * b) b :: transition_rows (S i) ws'
  | _ => []
  end.

(** What the loop of [compTex] builds on the layers [ls] numbered from
    [i]: the first of them outermost. *)
Fixpoint wrap_outer (i : nat) (ls : list Layer) (inner : string) : string :=
  match ls with
  | [] => inner
  | l :: ls' => compTex_wrap (compTex_fn (activation l)) i (wrap_outer (S i) ls' inner)
  end.

(** ** App and LossPanel together

    [App] renders [<LossPanel K={outputNodes} />]: a handler of [App]
    that changes the layers re-renders the panel with the new [K]. *)
Record Session := mkSession { app : AppState; panel : LossPanelState }.

Definition initialSession : Session := mkSession initialApp initialPanel.

Definition on_architecture (h : AppState → AppState) (s : Session) : option Session :=
  let app' := h (app s) in
  K ← outputNodes app';
  Some (mkSession app' (architectureChanged K (panel s))).

Definition on_select (key : LossKey) (s : Session) : option Session :=
  K ← outputNodes (app s);
  Some (mkSession (app s) (select K key (panel s))).

(** ** The events of the architecture controls

    What a user can trigger: the Reset and Add buttons of [App], and on
    the card of layer [index] the remove button, the two width buttons
    (which pass [-1] and [+1]; any [delta] is allowed here) and the
    activation select. *)
Inductive AppEvent :=
  | EvReset
  | EvAddLayer
  | EvRemove (index : nat)
  | EvNodes (index : nat) (delta : Z)
  | EvActivation (index : nat) (act : string).

Definition App_handle (st : AppState) (ev : AppEvent) : AppState :=
  match ev with
  | EvReset => reset st
  | EvAddLayer => addLayer st
  | EvRemove index => LayerCard_remove_onClick index st
  | EvNodes index delta => updateNodes index delta st
  | EvActivation index act => LayerCard_select_onChange index act st
  end.

Definition App_run (evs : list AppEvent) (st : AppState) : AppState :=
  foldl App_handle st evs.

(** Between three and [MAX_LAYERS] layers, every width within bounds. *)
Definition architecture_ok (st : AppState) : Prop :=
  (3 ≤ layerCount st ≤ MAX_LAYERS)%nat ∧ Forall width_ok (widths st).

(** ** Remaining constant (line 66) and array helper *)

Definition MAX_NODES_SHOWN : Z := 6.

(** [Array.from({ length: n }, (_, i) => f i)]: a negative length counts
    as 0. *)
Definition Array_from {A : Type} (n : Z) (f : nat → A) : list A :=
  f <$> seq 0 (Z.to_nat n).

(** ** ACT: the activation table (lines 53-64) *)

Record ActInfo := mkAct { color : string; tex : string }.

Definition ACT : gmap string ActInfo :=
  list_to_map
    [ ("ReLU", mkAct "#fb923c" "\max(0,z)");
      ("Sigmoid", mkAct "#22d3ee" "\dfrac{1}{1+e^{-z}}");
      ("Tanh", mkAct "#c084fc" "\dfrac{e^{z}-e^{-z}}{e^{z}+e^{-z}}");
      ("Linear", mkAct "#94a3b8" "z");
      ("Softmax", mkAct "#34d399" "\dfrac{e^{z_i}}{\sum_j e^{z_j}}") ].

(** [ACT[ac]?.color ?? "#94a3b8"] and [ACT[ac]?.tex ?? "z"] *)
Definition ACT_color (ac : string) : string := default "#94a3b8" (color <$> ACT !! ac).
Definition ACT_tex (ac : string) : string := default "z" (tex <$> ACT !! ac).

(** ** More controls of App and LayerCard *)

(** [onSelect={() => setSel(li)}] of a layer card (line 876) and
    [onSelect(li)] of a node or label of the graph (lines 655 and 675):
    both exist for the layers of the current list only. *)
Definition onSelect (li : nat) (st : AppState) : AppState :=
  match layers st !! li with
  | None => st
  | Some _ => mkApp (layers st) (Z.of_nat li)
  end.

(** The width buttons of a card (lines 708-721): [disabled] when the
    width is at its bound, and a disabled button fires no click. *)
Definition LayerCard_minus_onClick (index : nat) (st : AppState) : AppState :=
  match layers st !! index with
  | None => st
  | Some layer => if nodes layer <=? MIN_NODES then st else updateNodes index (-1) st
  end.

Definition LayerCard_plus_onClick (index : nat) (st : AppState) : AppState :=
  match layers st !! index with
  | None => st
  | Some layer => if nodes layer >=? MAX_NODES then st else updateNodes index 1 st
  end.


(** [prevNodes={li > 0 ? layers[li - 1].nodes : 0}] (line 872); inside
    [layers.map], [li - 1] is in range whenever [li > 0]. *)
Definition prevNodes (lrs : list Layer) (li : nat) : Z :=
  match li with
  | O => 0
  | S k => default 0 (nodes <$> lrs !! k)
  end.

(** The two formulas of a selected card (lines 749-750); the second is
    rendered for [index > 0] only. *)
Definition LayerCard_a_tex (layer : Layer) (index : nat) : string :=
  "a^{(" +:+ pretty index +:+ ")} \in \mathbb{R}^{" +:+ pretty (nodes layer) +:+ "}".

Definition LayerCard_W_tex (layer : Layer) (index : nat) (prev : Z) : option string :=
  if (0 <? index)%nat
  then Some ("W^{(" +:+ pretty index +:+ ")} \in \mathbb{R}^{"
             +:+ pretty (nodes layer) +:+ "\times" +:+ pretty prev +:+ "}")
  else None.

(** Every event of the architecture column and of the graph. *)
Inductive UIEvent :=
  | UiReset
  | UiAddLayer
  | UiRemove (index : nat)
  | UiMinus (index : nat)
  | UiPlus (index : nat)
  | UiActivation (index : nat) (act : string)
  | UiSelect (li : nat).

Definition UI_handle (st : AppState) (ev : UIEvent) : AppState :=
  match ev with
  | UiReset => reset st
  | UiAddLayer => addLayer st
  | UiRemove index => LayerCard_remove_onClick index st
  | UiMinus index => LayerCard_minus_onClick index st
  | UiPlus index => LayerCard_plus_onClick index st
  | UiActivation index act => LayerCard_select_onChange index act st
  | UiSelect li => onSelect li st
  end.

Definition UI_run (evs : list UIEvent) (st : AppState) : AppState :=
  foldl UI_handle st evs.

(** The options of the activation select are the entries of
    [ACTIVATIONS] (line 731). *)
Definition activation_offered (ev : UIEvent) : Prop :=
  match ev with
  | UiActivation _ act => act ∈ ACTIVATIONS
  | _ => True
  end.

(** The selected index names a layer. *)
Definition sel_ok (st : AppState) : Prop := 0 ≤ sel st < Z.of_nat (layerCount st).

(** What the activation of layer [i] of [total] may be: Linear for the
    input layer, Softmax for the output layer, an entry of [ACTIVATIONS]
    for a hidden layer. *)
Definition activation_allowed (i total : nat) (ac : string) : Prop :=
  if isInput i then ac = "Linear"
  else if isOutput i total then ac = "Softmax"
  else ac ∈ ACTIVATIONS.

Definition activations_ok (st : AppState) : Prop :=
  ∀ i l, layers st !! i = Some l → activation_allowed i (layerCount st) (activation l).

(** ** ParamExplainer: the table of the parameter count (lines 538-601) *)

Module ParamExplainer.

(** One row of the table body: the key, the cells Transition (empty in
    a bias row), Tensor and Formula, and the number shown in Count. *)
Record Row := mkLine
  { key : string; transition : option string; tensor : string;
    formula : string; count : Z }.

(** The two rows of a transition (lines 562-583). *)
Definition rows_of (r : BreakdownRow) : list Row :=
  [ mkLine ("w" +:+ pretty (layer r))
      (Some ("l_{" +:+ pretty (Z.of_nat (layer r) - 1) +:+ "} \to l_{"
             +:+ pretty (layer r) +:+ "}"))
      ("W^{(" +:+ pretty (layer r) +:+ ")}")
      (pretty (nout r) +:+ " \times " +:+ pretty (nin r))
      (W r);
    mkLine ("b" +:+ pretty (layer r))
      None
      ("b^{(" +:+ pretty (layer r) +:+ ")}")
      (pretty (nout r))
      (B r) ].

(** The body, [breakdown.flatMap(...)], and the three numbers of the
    footer. *)
Record Table := mkTable
  { body : list Row; weightsTotal : Z; biasesTotal : Z; totalParameters : Z }.

Definition table (lrs : list Layer) : Table :=
  let p := computeParams lrs in
  mkTable (breakdown p ≫= rows_of) (totalW p) (totalB p) (total p).

End ParamExplainer.

(** The general formula the modal prints above the table (line 551):
    the sum over the transitions of [n_l (n_(l-1) + 1)]. *)
Fixpoint general_formula (ws : list Z) : Z :=
  match ws with
  | a :: (b :: _) as ws' => b * (a + 1) + general_formula ws'
  | _ => 0
  end.

(** ** TransformCard: the text of a transition card (lines 244-383) *)

Module TransformCard.

Record Props := mkProps
  { fromLayer : option Layer; toLayer : Layer; layerIdx : nat;
    isLast : bool; startOpen : bool }.

(** The formulas of an open card: the header, the five dimension
    badges, the two equations and the four steps of the dimension
    flow. *)
Record View := mkView
  { cardColor : string;
    header : string;
    dimW : string; dimb : string; dimaPrev : string; dimz : string; dima : string;
    affine : string; activationEq : string;
    flow : list string }.

(** [fromLayer.nodes] raises a TypeError when [fromLayer] is
    undefined. *)
Definition view (p : Props) : option View :=
  from ← fromLayer p;
  let ac := activation (toLayer p) in
  let nin := pretty (nodes from) in
  let nout := pretty (nodes (toLayer p)) in
  let l := pretty (layerIdx p) in
  let lPrev := pretty (Z.of_nat (layerIdx p) - 1) in
  Some (mkView
    (ACT_color ac)
    ("a^{(" +:+ lPrev +:+ ")} \to a^{(" +:+ l +:+ ")}")
    ("W^{(" +:+ l +:+ ")} \in \mathbb{R}^{" +:+ nout +:+ "\times" +:+ nin +:+ "}")
    ("b^{(" +:+ l +:+ ")} \in \mathbb{R}^{" +:+ nout +:+ "}")
    ("a^{(" +:+ lPrev +:+ ")} \in \mathbb{R}^{" +:+ nin +:+ "}")
    ("z^{(" +:+ l +:+ ")} \in \mathbb{R}^{" +:+ nout +:+ "}")
    ("a^{(" +:+ l +:+ ")} \in \mathbb{R}^{" +:+ nout +:+ "}")
    ("z^{(" +:+ l +:+ ")} = W^{(" +:+ l +:+ ")} a^{(" +:+ lPrev +:+ ")} + b^{(" +:+ l +:+ ")}")
    ("a^{(" +:+ l +:+ ")} = \sigma\!\bigl(z^{(" +:+ l +:+ ")}\bigr), \qquad \sigma(z) = "
       +:+ ACT_tex ac)
    [ "a^{(" +:+ lPrev +:+ ")} \in \mathbb{R}^{" +:+ nin +:+ "}";
      "W^{(" +:+ l +:+ ")} a^{(" +:+ lPrev +:+ ")} \in \mathbb{R}^{" +:+ nout +:+ "}";
      "z^{(" +:+ l +:+ ")} = W^{(" +:+ l +:+ ")} a^{(" +:+ lPrev +:+ ")} + b^{(" +:+ l
        +:+ ")} \in \mathbb{R}^{" +:+ nout +:+ "}";
      "a^{(" +:+ l +:+ ")} = \sigma(z^{(" +:+ l +:+ ")}) \in \mathbb{R}^{" +:+ nout +:+ "}" ]).

End TransformCard.

(** The cards [App] renders (lines 925-934):
    [layers.slice(1).map((layer, li) => <TransformCard ... />)]. *)
Definition App_transformCards (st : AppState) : list TransformCard.Props :=
  imap (λ li layer,
          TransformCard.mkProps
            (layers st !! li) layer (li + 1)
            (Z.of_nat li =? Z.of_nat (layerCount st) - 2)
            (Z.of_nat li + 1 =? sel st))
       (drop 1 (layers st)).

(** The header of the weight matrix (line 210). *)
Definition WeightMatrix_header (nin nout : Z) (layerIdx : nat) : string :=
  "W^{(" +:+ pretty layerIdx +:+ ")} \in \mathbb{R}^{" +:+ pretty nout +:+ "\times"
  +:+ pretty nin +:+ "}".

(** ** Events of the whole page: the architecture and the loss buttons *)

Inductive SessionEvent :=
  | SeUI (ev : UIEvent)
  | SeSelectLoss (key : LossKey).

Definition Session_handle (s : Session) (ev : SessionEvent) : option Session :=
  match ev with
  | SeUI e => on_architecture (λ st, UI_handle st e) s
  | SeSelectLoss key => on_select key s
  end.

Definition Session_run (evs : list SessionEvent) (s : Session) : option Session :=
  foldl (λ os ev, os ≫= λ s', Session_handle s' ev) (Some s) evs.

(** The state of a session in which the active loss can be shown. *)
Definition session_ok (s : Session) : Prop :=
  architecture_ok (app s)
  ∧ ∃ K, outputNodes (app s) = Some K ∧ 1 ≤ K ≤ 8
         ∧ isDisabled K (lossKey (panel s)) = false.

(** ** NetworkSVG: the drawing of the network (lines 604-687)

    The coordinates are JavaScript numbers computed with division and
    multiplication, that is, binary64 floats.  They are kept abstract:
    [F] is the type of numbers, [num] embeds an integer and [fadd],
    [fsub], [fmul], [fdiv] are the four operations. *)

Module NetworkSVG.
Section Arithmetic.
Context {F : Type} (num : Z → F) (fadd fsub fmul fdiv : F → F → F).

Definition W : Z := 540.
Definition H : Z := 300.
Definition R : Z := 14.

Record Pos := mkPos { x : F; y : F; ellipsis : bool }.

Definition positions (lrs : list Layer) (li : nat) (count : Z) : list Pos :=
  let x := fmul (fdiv (num W) (num (Z.of_nat (length lrs) + 1))) (num (Z.of_nat li + 1)) in
  let shown := Z.min count MAX_NODES_SHOWN in
  Array_from shown
    (λ i, mkPos x
            (fmul (fdiv (num H) (num (shown + 1))) (num (Z.of_nat i + 1)))
            ((Z.of_nat i =? MAX_NODES_SHOWN - 1) && (count >? MAX_NODES_SHOWN))).

(** A [<line>] between two nodes; [stroke] and [strokeWidth] are
    chosen by [hi]. *)
Record Line := mkLine
  { key : string; x1 : F; y1 : F; x2 : F; y2 : F; hi : bool; stroke : string }.

(** The lines from layer [li] to layer [li + 1]:
    [from.flatMap((f, fi) => to.map((t, ti) => <line ... />))]. *)
Definition edge_group (lrs : list Layer) (selectedLayer : Z) (li : nat)
    (layer next : Layer) : list Line :=
  let from := positions lrs li (nodes layer) in
  let to := positions lrs (li + 1) (nodes next) in
  let hi := (selectedLayer =? Z.of_nat li) || (selectedLayer =? Z.of_nat li + 1) in
  mjoin (imap (λ fi f,
           imap (λ ti t,
              mkLine ("e" +:+ pretty li +:+ "-" +:+ pretty fi +:+ "-" +:+ pretty ti)
                     (fadd (x f) (num R)) (y f) (fsub (x t) (num R)) (y t)
                     hi
                     (if hi then "rgba(99,102,241,0.38)" else "rgba(255,255,255,0.045)"))
              to)
           from).

(** [layers.slice(0, -1).map((layer, li) => ...)]; inside the map
    [layers[li + 1]] is in range. *)
Definition edges (lrs : list Layer) (selectedLayer : Z) : list (list Line) :=
  imap (λ li layer,
          match lrs !! (li + 1)%nat with
          | Some next => edge_group lrs selectedLayer li layer next
          | None => []
          end)
       (take (length lrs - 1) lrs).

End Arithmetic.


End NetworkSVG.

(** ** WeightMatrix: the grid of illustrative entries (lines 205-241)

    The entries are the floats [seedVal] returns; [V] is their type and
    [seedVal] is kept abstract.  The colours of a cell, computed from the
    entry, are left out. *)

Module WeightMatrix.
Section Values.
Context {V : Type} (seedVal : Z → Z → Z → V).

Record Cell := mkCell { title : string; v : V }.

Record Grid := mkGrid
  { rows : list (list Cell);
    rowEllipsis : bool;        (* nin > 5: a mark at the end of each row *)
    bottomEllipsis : bool;     (* nout > 5: a mark under the rows *)
    VR : Z; VC : Z }.

Definition cell (layerIdx : nat) (r c : nat) : Cell :=
  mkCell
    ("W[" +:+ pretty (Z.of_nat r + 1) +:+ "," +:+ pretty (Z.of_nat c + 1)
     +:+ "]: weight from neuron " +:+ pretty (Z.of_nat c + 1)
     +:+ " (layer " +:+ pretty (Z.of_nat layerIdx - 1)
     +:+ ") to neuron " +:+ pretty (Z.of_nat r + 1)
     +:+ " (layer " +:+ pretty layerIdx +:+ ")")
    (seedVal (Z.of_nat layerIdx) (Z.of_nat r) (Z.of_nat c)).

Definition grid (nin nout : Z) (layerIdx : nat) : Grid :=
  let VR := Z.min nout 5 in
  let VC := Z.min nin 5 in
  mkGrid (Array_from VR (λ r, Array_from VC (λ c, cell layerIdx r c)))
         (nin >? 5) (nout >? 5) VR VC.

End Values.
End WeightMatrix.

(** The number of lines [NetworkSVG] draws between consecutive layers
    of widths [ws]. *)
Fixpoint edge_count (ws : list Z) : Z :=
  match ws with
  | a :: (b :: _) as ws' =>
      Z.of_nat (Z.to_nat (Z.min a MAX_NODES_SHOWN)) * Z.of_nat (Z.to_nat (Z.min b MAX_NODES_SHOWN))
      + edge_count ws'
  | _ => 0
  end.

(** ** Reading a printed formula back

    A reader for the right-hand sides the catalogue prints, written
    independently of [render]: the text is cut into tokens and parsed with
    the usual precedences, a power binding tighter than a product written
    by juxtaposition, a product tighter than a difference, differences
    grouping to the left.  Numerals are read as decimal numbers with at
    most the fraction [.5]. *)

Inductive Token :=
  | TokSym (s : Sym)
  | TokNum (h : Half)
  | TokLParen | TokRParen
  | TokLog
  | TokMinusSp | TokMinus
  | TokPowOpen | TokRBrace.

(** What is left of [s] after the prefix [p]. *)
Fixpoint strip (p s : string) : option string :=
  match p, s with
  | EmptyString, _ => Some s
  | String a p', String b s' => if Ascii.eqb a b then strip p' s' else None
  | String _ _, EmptyString => None
  end.

Definition digit_of (c : Ascii.ascii) : option Z :=
  let n := Z.of_nat (Ascii.nat_of_ascii c) in
  if (48 <=? n) && (n <=? 57) then Some (n - 48) else None.

Definition starts_with_digit (s : string) : bool :=
  match s with
  | String c _ => bool_decide (is_Some (digit_of c))
  | EmptyString => false
  end.

(** The value of the digits [s] begins with, after [acc], and the rest. *)
Fixpoint read_digits (acc : Z) (s : string) : Z * string :=
  match s with
  | String c r =>
      match digit_of c with
      | Some d => read_digits (10 * acc + d) r
      | None => (acc, s)
      end
  | EmptyString => (acc, s)
  end.

Definition read_numeral (s : string) : option (Half * string) :=
  if starts_with_digit s then
    let '(n, r) := read_digits 0 s in
    match strip ".5" r with
    | Some r' => if starts_with_digit r' then None else Some (mkHalf (2 * n + 1), r')
    | None => Some (mkHalf (2 * n), r)
    end
  else None.

Definition fixed_tokens : list (string * Token) :=
  [ ("\hat{y}_{y^*}", TokSym yhat_star);
    ("\hat{y}_i", TokSym yhat_i);
    ("\delta_{i,y^*}", TokSym delta_i_star);
    ("y_i", TokSym y_i);
    ("\log(", TokLog);
    (" - ", TokMinusSp);
    ("-", TokMinus);
    ("(", TokLParen);
    (")", TokRParen);
    ("^{", TokPowOpen);
    ("}", TokRBrace) ].

Fixpoint first_token (table : list (string * Token)) (s : string)
    : option (Token * string) :=
  match table with
  | [] => None
  | (p, t) :: table' =>
      match strip p s with
      | Some r => Some (t, r)
      | None => first_token table' s
      end
  end.

Definition next_token (s : string) : option (Token * string) :=
  match first_token fixed_tokens s with
  | Some tr => Some tr
  | None => (λ hr : Half * string, (TokNum hr.1, hr.2)) <$> read_numeral s
  end.

Fixpoint tokenize (fuel : nat) (s : string) : option (list Token) :=
  match s with
  | EmptyString => Some []
  | _ =>
      match fuel with
      | O => None
      | S f =>
          match next_token s with
          | Some (t, r) => cons t <$> tokenize f r
          | None => None
          end
      end
  end.

(** What is being parsed: a difference, the rest of a difference whose
    left part is [acc], a product, a factor, an atom. *)
Inductive Level := LExpr | LRest (acc : Tex) | LTerm | LFactor | LAtom.

Definition starts_factor (ts : list Token) : bool :=
  match ts with
  | TokSym _ :: _ | TokNum _ :: _ | TokLParen :: _ | TokLog :: _ => true
  | _ => false
  end.

Fixpoint parse (fuel : nat) (lvl : Level) (ts : list Token) : option (Tex * list Token) :=
  match fuel with
  | O => None
  | S f =>
      match lvl with
      | LAtom =>
          match ts with
          | TokSym s :: r => Some (TSym s, r)
          | TokNum h :: r => Some (TNum h, r)
          | TokLParen :: r =>
              match parse f LExpr r with
              | Some (e, TokRParen :: r') => Some (TParen e, r')
              | _ => None
              end
          | TokLog :: r =>
              match parse f LExpr r with
              | Some (e, TokRParen :: r') => Some (TLog e, r')
              | _ => None
              end
          | _ => None
          end
      | LFactor =>
          match parse f LAtom ts with
          | Some (a, TokPowOpen :: r) =>
              match parse f LExpr r with
              | Some (e, TokRBrace :: r') => Some (TPow a e, r')
              | _ => None
              end
          | other => other
          end
      | LTerm =>
          match parse f LFactor ts with
          | Some (a, r) =>
              if starts_factor r
              then match parse f LTerm r with
                   | Some (b, r') => Some (TJuxt a b, r')
                   | None => None
                   end
              else Some (a, r)
          | None => None
          end
      | LExpr =>
          match parse f LTerm ts with
          | Some (a, r) => parse f (LRest a) r
          | None => None
          end
      | LRest acc =>
          match ts with
          | TokMinusSp :: r =>
              match parse f LTerm r with
              | Some (b, r') => parse f (LRest (TMinus acc b)) r'
              | None => None
              end
          | TokMinus :: r =>
              match parse f LTerm r with
              | Some (b, r') => parse f (LRest (TMinusTight acc b)) r'
              | None => None
              end
          | _ => Some (acc, ts)
          end
      end
  end.

Definition read_tex (s : string) : option Tex :=
  match tokenize (String.length s) s with
  | Some ts =>
      match parse (8 * length ts + 8) LExpr ts with
      | Some (t, []) => Some t
      | _ => None
      end
  | None => None
  end.

(** The two sides of the first [" = "] of [s]. *)
Fixpoint split_at_eq (s : string) : option (string * string) :=
  match strip " = " s with
  | Some r => Some (EmptyString, r)
  | None =>
      match s with
      | String c s' =>
          match split_at_eq s' with
          | Some (l, r) => Some (String c l, r)
          | None => None
          end
      | EmptyString => None
      end
  end.

(** A printed equation, read: its left-hand side as it is printed and
    the expression on its right. *)
Definition read_formula (s : string) : option (string * Tex) :=
  match split_at_eq s with
  | Some (l, r) => (λ t, (l, t)) <$> read_tex r
  | None => None
  end.

(** The two-term expression of the focal gradient for [gamma = g2 / 2],
    written out: the numerals are [gamma], [gamma] and
    [max(0, gamma - 1)]. *)
Definition two_term_formula (g2 : Z) : Tex :=
  TMinus
    (TJuxt
       (TPow (TParen (TMinusTight (TNum (mkHalf 2)) (TSym yhat_star))) (TNum (mkHalf g2)))
       (TParen (TMinus (TSym yhat_i) (TSym y_i))))
    (TJuxt (TNum (mkHalf g2))
       (TJuxt
          (TPow (TParen (TMinusTight (TNum (mkHalf 2)) (TSym yhat_star)))
                (TNum (mkHalf (Z.max 0 (g2 - 2)))))
          (TJuxt (TLog (TSym yhat_star))
             (TJuxt (TSym yhat_star)
                (TParen (TMinus (TSym delta_i_star) (TSym yhat_i))))))).

(** Its value for a real [gamma], in plain arithmetic. *)
Definition two_term_value (env : Sym → R) (gamma : R) : R :=
  (Rpower (1 - env yhat_star) gamma * (env yhat_i - env y_i)
   - gamma
     * (Rpower (1 - env yhat_star) (Rmax 0 (gamma - 1))
        * (ln (env yhat_star)
           * (env yhat_star * (env delta_i_star - env yhat_i)))))%R.

(** Bounds on concrete widths, and on clamped ones. *)
Ltac width_bounds :=
  unfold width_ok, MIN_NODES, MAX_NODES, MAX_LAYERS in *;
  repeat constructor; cbn; lia.

(** * Properties *)

(** ** computeParams *)

Lemma transition_rows_length i ws : length (transition_rows i ws) = (length ws - 1)%nat.
Proof.
  revert i. induction ws as [|a [|b ws] IH]; intros i; try reflexivity.
  change (S (length (transition_rows (S i) (b :: ws))) = (length (a :: b :: ws) - 1)%nat).
  rewrite IH. simpl. lia.
Qed.

Lemma transition_rows_lookup ws : ∀ i j a b,
  ws !! j = Some a → ws !! S j = Some b →
  transition_rows i ws !! j = Some (mkRow (i + j) a b (a * b) b).
Proof.
  induction ws as [|x [|y ws] IH]; intros i j a b Ha Hb; try done.
  destruct j as [|j].
  - simpl in *. simplify_eq. by rewrite Nat.add_0_r.
  - change (transition_rows (S i) (y :: ws) !! j = Some (mkRow (i + S j) a b (a * b) b)).
    rewrite (IH (S i) j a b Ha Hb). do 2 f_equal. lia.
Qed.

Lemma transition_rows_cons2 i a b ws :
  transition_rows i (a :: b :: ws) = mkRow i a b (a * b) b :: transition_rows (S i) (b :: ws).
Proof. reflexivity. Qed.

Lemma computeParams_loop lrs : ∀ rest pre a acc,
  lrs = pre ++ a :: rest →
  for_up (S (length pre)) (length rest) (computeParams_body lrs) acc
  = mkAcc (accW acc + Zsum (W <$> transition_rows (S (length pre)) (nodes <$> a :: rest)))
          (accB acc + Zsum (B <$> transition_rows (S (length pre)) (nodes <$> a :: rest)))
          (accRows acc ++ transition_rows (S (length pre)) (nodes <$> a :: rest)).
Proof.
  induction rest as [|b rest IH]; intros pre a acc Hl.
  - destruct acc as [w b rs]. cbn. f_equal; try lia. by rewrite app_nil_r.
  - assert (Ha : lrs !! length pre = Some a).
    { subst lrs. by rewrite list_lookup_middle. }
    assert (Hb : lrs !! S (length pre) = Some b).
    { subst lrs. rewrite (lookup_app_r pre) by lia.
      by replace (S (length pre) - length pre)%nat with 1%nat by lia. }
    cbn [length for_up].
    specialize (IH (pre ++ [a]) b (computeParams_body lrs (S (length pre)) acc)).
    rewrite length_app, Nat.add_1_r in IH.
    rewrite IH by (by rewrite <- app_assoc).
    unfold computeParams_body.
    replace (S (length pre) - 1)%nat with (length pre) by lia.
    rewrite Ha, Hb. rewrite !fmap_cons, transition_rows_cons2.
    cbn [accW accB accRows]. rewrite !fmap_cons. cbn [W B Zsum foldr].
    fold (Zsum (W <$> transition_rows (S (S (length pre))) (nodes b :: (nodes <$> rest)))).
    fold (Zsum (B <$> transition_rows (S (S (length pre))) (nodes b :: (nodes <$> rest)))).
    f_equal; try lia. by rewrite <- app_assoc.
Qed.

Lemma computeParams_closed lrs :
  computeParams lrs
  = mkParams (Zsum (W <$> transition_rows 1 (nodes <$> lrs)))
             (Zsum (B <$> transition_rows 1 (nodes <$> lrs)))
             (Zsum (W <$> transition_rows 1 (nodes <$> lrs))
              + Zsum (B <$> transition_rows 1 (nodes <$> lrs)))
             (transition_rows 1 (nodes <$> lrs)).
Proof.
  destruct lrs as [|a rest]; [reflexivity|].
  unfold computeParams.
  replace (length (a :: rest) - 1)%nat with (length rest) by (simpl; lia).
  pose proof (computeParams_loop (a :: rest) rest [] a (mkAcc 0 0 []) eq_refl) as H.
  cbn [length] in H. rewrite H. reflexivity.
Qed.

(** C1: for every layer list, [computeParams] returns one row per
    transition from layer [i-1] (width [nIn]) to layer [i] (width [nOut]),
    with weight count [nIn * nOut] and bias count [nOut]; [totalW] and
    [totalB] are the sums of the rows' counts and [total] is their sum; on
    the default widths 3, 5, 4, 2 the totals are 43, 11 and 54. *)
Theorem computeParams_counts (lrs : list Layer) :
  let r := computeParams lrs in
  length (breakdown r) = (length lrs - 1)%nat
  ∧ (∀ i lin lout,
        lrs !! i = Some lin → lrs !! S i = Some lout →
        breakdown r !! i
        = Some (mkRow (S i) (nodes lin) (nodes lout) (nodes lin * nodes lout) (nodes lout)))
  ∧ totalW r = Zsum (W <$> breakdown r)
  ∧ totalB r = Zsum (B <$> breakdown r)
  ∧ total r = totalW r + totalB r
  ∧ totalW (computeParams defaultLayers) = 43
  ∧ totalB (computeParams defaultLayers) = 11
  ∧ total (computeParams defaultLayers) = 54.
Proof.
  intros r. subst r. rewrite computeParams_closed.
  cbn [breakdown totalW totalB total].
  split; [|split]; [..|done].
  - by rewrite transition_rows_length, length_fmap.
  - intros i lin lout Hin Hout.
    apply (transition_rows_lookup _ 1 i (nodes lin) (nodes lout)).
    + by rewrite list_lookup_fmap, Hin.
    + by rewrite list_lookup_fmap, Hout.
Qed.

(** The second transition of the default architecture, read off the
    theorem. *)
Lemma computeParams_counts_witness :
  breakdown (computeParams defaultLayers) !! 1%nat = Some (mkRow 2 5 4 20 4).
Proof.
  exact (proj1 (proj2 (computeParams_counts defaultLayers))
           1%nat (mkLayer 5 "ReLU") (mkLayer 4 "Tanh") eq_refl eq_refl).
Defined.

(** ** Handlers that rewrite one layer *)

Lemma updateAct_lookup idx act st j :
  layers (updateAct idx act st) !! j
  = (λ l, if (j =? idx)%nat then mkLayer (nodes l) act else l) <$> layers st !! j.
Proof. unfold updateAct. cbn [layers]. by rewrite list_lookup_imap. Qed.

Lemma updateNodes_lookup idx delta st j :
  layers (updateNodes idx delta st) !! j
  = (λ l, if (j =? idx)%nat
          then mkLayer (Z.max MIN_NODES (Z.min MAX_NODES (nodes l + delta))) (activation l)
          else l) <$> layers st !! j.
Proof. unfold updateNodes. cbn [layers]. by rewrite list_lookup_imap. Qed.

Lemma updateAct_widths idx act st : widths (updateAct idx act st) = widths st.
Proof.
  unfold widths. apply list_eq. intros j.
  rewrite !list_lookup_fmap, updateAct_lookup.
  destruct (layers st !! j) as [l|]; [|done]. cbn.
  by destruct (j =? idx)%nat.
Qed.

Lemma select_onChange_widths idx act st :
  widths (LayerCard_select_onChange idx act st) = widths st.
Proof.
  unfold LayerCard_select_onChange.
  destruct (layers st !! idx); [|done].
  destruct (negb (isInput idx) && negb (isOutput idx (layerCount st))); [|done].
  apply updateAct_widths.
Qed.

(** C10: [computeParams] reads the widths only: two layer lists with the
    same sequence of widths get the same rows and totals, whatever their
    activations; hence changing an activation ([updateAct], also through
    the select of a layer card) leaves every count as it was. *)
Theorem computeParams_widths_only :
  (∀ lrs1 lrs2 : list Layer,
      nodes <$> lrs1 = nodes <$> lrs2 → computeParams lrs1 = computeParams lrs2)
  ∧ (∀ idx act st, computeParams (layers (updateAct idx act st)) = computeParams (layers st))
  ∧ (∀ idx act st,
        computeParams (layers (LayerCard_select_onChange idx act st))
        = computeParams (layers st)).
Proof.
  assert (Hw : ∀ lrs1 lrs2 : list Layer,
             nodes <$> lrs1 = nodes <$> lrs2 → computeParams lrs1 = computeParams lrs2).
  { intros lrs1 lrs2 Heq. rewrite !computeParams_closed. by rewrite Heq. }
  split; [exact Hw|split]; intros idx act st; apply Hw.
  - apply updateAct_widths.
  - apply select_onChange_widths.
Qed.

(** Two architectures of widths 3, 4, 2 that differ in every activation. *)
Lemma computeParams_widths_only_witness :
  computeParams [mkLayer 3 "Linear"; mkLayer 4 "ReLU"; mkLayer 2 "Softmax"]
  = computeParams [mkLayer 3 "Tanh"; mkLayer 4 "Sigmoid"; mkLayer 2 "Linear"].
Proof.
  exact (proj1 computeParams_widths_only
           [mkLayer 3 "Linear"; mkLayer 4 "ReLU"; mkLayer 2 "Softmax"]
           [mkLayer 3 "Tanh"; mkLayer 4 "Sigmoid"; mkLayer 2 "Linear"] eq_refl).
Defined.

(** ** updateNodes *)

Lemma clamp_range (w : Z) : width_ok (Z.max MIN_NODES (Z.min MAX_NODES w)).
Proof. width_bounds. Qed.

Lemma updateNodes_keeps_widths_ok idx delta st :
  Forall width_ok (widths st) → Forall width_ok (widths (updateNodes idx delta st)).
Proof.
  unfold widths. rewrite !Forall_lookup. intros Hok j w.
  rewrite list_lookup_fmap, updateNodes_lookup.
  destruct (layers st !! j) as [l|] eqn:Hl; [|done]. cbn.
  intros [= <-]. destruct (j =? idx)%nat; cbn [nodes].
  - apply clamp_range.
  - apply (Hok j). by rewrite list_lookup_fmap, Hl.
Qed.

Lemma updateNodes_many_keeps_widths_ok calls : ∀ st,
  Forall width_ok (widths st) → Forall width_ok (widths (updateNodes_many calls st)).
Proof.
  unfold updateNodes_many.
  induction calls as [|[idx delta] calls IH]; intros st Hok; [done|].
  cbn [foldl]. apply IH. by apply updateNodes_keeps_widths_ok.
Qed.

Lemma updateNodes_fixed idx delta st :
  (∀ l, layers st !! idx = Some l → Z.max MIN_NODES (Z.min MAX_NODES (nodes l + delta)) = nodes l) →
  updateNodes idx delta st = st.
Proof.
  intros Hfix. destruct st as [lrs s]. unfold updateNodes. cbn [layers sel] in *.
  f_equal. apply list_eq. intros j. rewrite list_lookup_imap.
  destruct (lrs !! j) as [l|] eqn:Hl; [|done]. cbn.
  destruct (Nat.eqb_spec j idx) as [->|]; [|done].
  rewrite (Hfix l Hl). by destruct l.
Qed.

(** C5: [updateNodes(idx, delta)] sets the width of layer [idx] to
    [width + delta] clamped into [MIN_NODES, MAX_NODES] = [1, 8], for any
    [delta]: the new width is in [1, 8], every other layer and the
    activation are kept; any sequence of calls keeps all widths in [1, 8];
    and a call that would leave the range changes nothing: [+1] at width 8
    leaves the state as it is (and so does [-1] at width 1). *)
Theorem updateNodes_clamps (idx : nat) (delta : Z) (st : AppState) :
  (∀ l, layers st !! idx = Some l →
     let w := nodes l + delta in
     let w' := if w <? 1 then 1 else if 8 <? w then 8 else w in
     layers (updateNodes idx delta st) !! idx = Some (mkLayer w' (activation l))
     ∧ 1 ≤ w' ≤ 8)
  ∧ (∀ j, j ≠ idx → layers (updateNodes idx delta st) !! j = layers st !! j)
  ∧ length (layers (updateNodes idx delta st)) = length (layers st)
  ∧ (∀ calls, Forall width_ok (widths st) →
       Forall (λ w, 1 ≤ w ≤ 8) (widths (updateNodes_many calls st)))
  ∧ (∀ l, layers st !! idx = Some l → nodes l = 8 → updateNodes idx 1 st = st)
  ∧ (∀ l, layers st !! idx = Some l → nodes l = 1 → updateNodes idx (-1) st = st).
Proof.
  split; [|repeat split].
  - intros l Hl w w'. subst w'.
    rewrite updateNodes_lookup, Hl. cbn. rewrite Nat.eqb_refl.
    fold w. unfold MIN_NODES, MAX_NODES.
    destruct (Z.ltb_spec w 1), (Z.ltb_spec 8 w);
      (split; [do 2 f_equal|]; lia).
  - intros j Hj. rewrite updateNodes_lookup.
    destruct (layers st !! j); [|done]. cbn.
    by destruct (Nat.eqb_spec j idx).
  - unfold updateNodes. cbn [layers]. apply length_imap.
  - intros calls Hok. by apply updateNodes_many_keeps_widths_ok.
  - intros l Hl Hw. apply updateNodes_fixed. intros l' Hl'.
    unfold MIN_NODES, MAX_NODES. simplify_eq. lia.
  - intros l Hl Hw. apply updateNodes_fixed. intros l' Hl'.
    unfold MIN_NODES, MAX_NODES. simplify_eq. lia.
Qed.

(** The output layer of the default architecture, widened to 8 by a
    large step, stays at 8 under [+1]. *)
Lemma updateNodes_clamps_witness :
  updateNodes 3 1 (updateNodes 3 100 initialApp) = updateNodes 3 100 initialApp
  ∧ Forall (λ w, 1 ≤ w ≤ 8)
      (widths (updateNodes_many [(3%nat, 100); (0%nat, -7); (1%nat, 2)] initialApp)).
Proof.
  split.
  - refine (proj1 (proj2 (proj2 (proj2 (proj2 (updateNodes_clamps 3 1 _)))))
              (mkLayer 8 "Softmax") _ _); reflexivity.
  - refine (proj1 (proj2 (proj2 (proj2 (updateNodes_clamps 0 0 initialApp)))) _ _).
    width_bounds.
Defined.

(** ** addLayer *)

Lemma splice_insert_before_last {A : Type} (front : list A) (out item : A) :
  splice_insert (Z.of_nat (length (front ++ [out])) - 1) item (front ++ [out])
  = front ++ [item; out].
Proof.
  unfold splice_insert. rewrite length_app. cbn [length].
  destruct (Z.ltb_spec (Z.of_nat (length front + 1) - 1) 0) as [Hneg|_]; [lia|].
  replace (Z.to_nat (Z.min (Z.of_nat (length front + 1) - 1) (Z.of_nat (length front + 1))))
    with (length front) by lia.
  by rewrite take_app_length, drop_app_length.
Qed.

Lemma addLayer_at_max st : (MAX_LAYERS ≤ layerCount st)%nat → addLayer st = st.
Proof. intros Hn. unfold addLayer, isAtMaxLayers. by rewrite bool_decide_eq_true_2. Qed.

Lemma addLayer_below_max st front out :
  layers st = front ++ [out] → (layerCount st < MAX_LAYERS)%nat →
  addLayer st = mkApp (front ++ [mkLayer 4 "ReLU"; out]) (sel st).
Proof.
  intros Hl Hn. unfold addLayer, isAtMaxLayers.
  rewrite bool_decide_eq_false_2 by lia.
  cbn zeta. rewrite Hl. by rewrite splice_insert_before_last.
Qed.

(** C6: [addLayer] changes nothing when there are [MAX_LAYERS] = 6
    layers: the state after is the state before, layer by layer; with
    fewer layers it inserts exactly one layer of width 4 with activation
    ReLU right before the output layer and keeps every other layer, in
    order. *)
Theorem addLayer_inserts_before_output (st : AppState) :
  (layerCount st = 6%nat → addLayer st = st)
  ∧ (∀ front out,
        layers st = front ++ [out] → (layerCount st < 6)%nat →
        addLayer st = mkApp (front ++ [mkLayer 4 "ReLU"; out]) (sel st)).
Proof.
  split.
  - intros Hn. apply addLayer_at_max. unfold MAX_LAYERS. lia.
  - intros front out Hl Hn. by apply addLayer_below_max.
Qed.

(** A fifth layer is added to the default architecture; a network of six
    layers is left alone. *)
Lemma addLayer_inserts_before_output_witness :
  addLayer initialApp
  = mkApp [mkLayer 3 "Linear"; mkLayer 5 "ReLU"; mkLayer 4 "Tanh";
           mkLayer 4 "ReLU"; mkLayer 2 "Softmax"] 1
  ∧ addLayer (addLayer (addLayer initialApp)) = addLayer (addLayer initialApp).
Proof.
  split.
  - exact (proj2 (addLayer_inserts_before_output initialApp)
             [mkLayer 3 "Linear"; mkLayer 5 "ReLU"; mkLayer 4 "Tanh"]
             (mkLayer 2 "Softmax") eq_refl ltac:(cbn; lia)).
  - exact (proj1 (addLayer_inserts_before_output (addLayer (addLayer initialApp))) eq_refl).
Defined.

(** ** removeLayer *)

Lemma filter_from_above {A : Type} (l : list A) : ∀ m t,
  (t < m)%nat → filter_from m (λ _ i, negb (i =? t)%nat) l = l.
Proof.
  induction l as [|x l IH]; intros m t Hlt; [done|].
  cbn [filter_from]. destruct (Nat.eqb_spec m t); [lia|].
  cbn [negb]. f_equal. apply IH. lia.
Qed.

Lemma filter_from_delete {A : Type} (l : list A) : ∀ k idx,
  filter_from k (λ _ i, negb (i =? k + idx)%nat) l = delete idx l.
Proof.
  induction l as [|x l IH]; intros k idx; [done|].
  cbn [filter_from]. destruct idx as [|idx].
  - rewrite Nat.add_0_r, Nat.eqb_refl. cbn [negb]. apply filter_from_above. lia.
  - destruct (Nat.eqb_spec k (k + S idx)); [lia|]. cbn [negb].
    replace (k + S idx)%nat with (S k + idx)%nat by lia.
    by rewrite IH.
Qed.

Lemma removeLayer_layers idx st : layers (removeLayer idx st) = delete idx (layers st).
Proof. unfold removeLayer, js_filter. cbn [layers]. apply (filter_from_delete _ 0%nat idx). Qed.

Lemma isOutput_spec index total :
  (0 < total)%nat → isOutput index total = bool_decide (S index = total).
Proof.
  intros Hpos. unfold isOutput.
  destruct (Z.eqb_spec (Z.of_nat index) (Z.of_nat total - 1)).
  - by rewrite bool_decide_eq_true_2 by lia.
  - by rewrite bool_decide_eq_false_2 by lia.
Qed.

(** The remove control of a hidden card above the minimum calls
    [removeLayer]; every other click leaves the state alone. *)
Lemma remove_onClick_hidden index st :
  (0 < index)%nat → (S index < layerCount st)%nat → (3 < layerCount st)%nat →
  LayerCard_remove_onClick index st = removeLayer index st.
Proof.
  intros H0 Hlast Hmin. unfold LayerCard_remove_onClick.
  destruct (lookup_lt_is_Some_2 (layers st) index) as [l ->]; [unfold layerCount in *; lia|].
  rewrite isOutput_spec by lia.
  unfold isInput, isAtMinLayers.
  destruct (Nat.eqb_spec index 0); [lia|].
  rewrite !bool_decide_eq_false_2 by lia. done.
Qed.

Lemma remove_onClick_guarded index st :
  (index = 0 ∨ S index = layerCount st ∨ layerCount st ≤ 3)%nat →
  LayerCard_remove_onClick index st = st.
Proof.
  intros Hcase. unfold LayerCard_remove_onClick.
  destruct (layers st !! index) as [l|] eqn:Hl; [|done].
  apply lookup_lt_Some in Hl. fold (layerCount st) in Hl.
  rewrite isOutput_spec by lia.
  unfold isInput, isAtMinLayers.
  destruct (Nat.eqb_spec index 0); [done|]. cbn [negb andb].
  destruct (decide (S index = layerCount st)).
  - by rewrite bool_decide_eq_true_2.
  - rewrite bool_decide_eq_false_2 by done. cbn [negb].
    by rewrite bool_decide_eq_true_2 by lia.
Qed.

(** C2, as the code has it: the remove control never fails.  On the input
    card, on the output card, and when there are three layers or fewer it
    returns with the state as it was; on a hidden card with more than
    three layers it removes exactly the layer at [index]: the layers
    before it keep their positions, the layers after it move down by one,
    and nothing else changes in the list. *)
Theorem removeHiddenLayer_guarded (index : nat) (st : AppState) :
  (∀ e, removeHiddenLayer index st ≠ Thrown e)
  ∧ ((index = 0 ∨ S index = layerCount st ∨ layerCount st ≤ 3)%nat →
       removeHiddenLayer index st = Returned st)
  ∧ ((0 < index)%nat → (S index < layerCount st)%nat → (3 < layerCount st)%nat →
       ∃ st', removeHiddenLayer index st = Returned st'
         ∧ length (layers st') = (layerCount st - 1)%nat
         ∧ (∀ j, (j < index)%nat → layers st' !! j = layers st !! j)
         ∧ (∀ j, (index ≤ j)%nat → layers st' !! j = layers st !! S j)).
Proof.
  unfold removeHiddenLayer. split; [done|split].
  - intros Hcase. by rewrite remove_onClick_guarded.
  - intros H0 Hlast Hmin. eexists. split; [reflexivity|].
    rewrite remove_onClick_hidden, removeLayer_layers by done.
    split; [|split].
    + rewrite length_delete; [done|]. apply lookup_lt_is_Some_2. unfold layerCount in *. lia.
    + intros j Hj. by apply list_lookup_delete_lt.
    + intros j Hj. by apply list_lookup_delete_ge.
Qed.

(** The first hidden layer of the default architecture is removed; in a
    three-layer network the click changes nothing. *)
Lemma removeHiddenLayer_guarded_witness :
  (∃ st', removeHiddenLayer 1 initialApp = Returned st'
     ∧ length (layers st') = 3%nat
     ∧ (∀ j, (j < 1)%nat → layers st' !! j = defaultLayers !! j)
     ∧ (∀ j, (1 ≤ j)%nat → layers st' !! j = defaultLayers !! S j))
  ∧ removeHiddenLayer 1 (mkApp [mkLayer 3 "Linear"; mkLayer 5 "ReLU"; mkLayer 2 "Softmax"] 1)
    = Returned (mkApp [mkLayer 3 "Linear"; mkLayer 5 "ReLU"; mkLayer 2 "Softmax"] 1).
Proof.
  split.
  - apply (proj2 (proj2 (removeHiddenLayer_guarded 1 initialApp))); cbn; lia.
  - apply (proj1 (proj2 (removeHiddenLayer_guarded 1 _))). cbn. lia.
Defined.

(** C2, as stated, fails: no call ends in [InvalidOperation].  On the
    input card and on the output card of the default architecture, and on
    the hidden card of a three-layer network, the call returns and the
    state is the one before. *)
Lemma removeHiddenLayer_never_InvalidOperation :
  let three := mkApp [mkLayer 3 "Linear"; mkLayer 5 "ReLU"; mkLayer 2 "Softmax"] 1 in
  (removeHiddenLayer 0 initialApp = Returned initialApp
   ∧ removeHiddenLayer 0 initialApp ≠ Thrown InvalidOperation)
  ∧ (removeHiddenLayer 3 initialApp = Returned initialApp
     ∧ removeHiddenLayer 3 initialApp ≠ Thrown InvalidOperation)
  ∧ (removeHiddenLayer 1 three = Returned three
     ∧ removeHiddenLayer 1 three ≠ Thrown InvalidOperation).
Proof. cbv zeta. repeat split; (reflexivity || discriminate). Qed.

(** The guard lives in the card only: called on index 0, [removeLayer]
    itself drops the input layer. *)
Example removeLayer_unguarded :
  layers (removeLayer 0 initialApp)
  = [mkLayer 5 "ReLU"; mkLayer 4 "Tanh"; mkLayer 2 "Softmax"].
Proof. reflexivity. Qed.

(** ** updateAct *)

Lemma updateAct_insert idx act st l :
  layers st !! idx = Some l →
  updateAct idx act st = mkApp (<[idx := mkLayer (nodes l) act]> (layers st)) (sel st).
Proof.
  intros Hl. unfold updateAct. f_equal. apply list_eq. intros j.
  rewrite list_lookup_imap.
  destruct (Nat.eqb_spec j idx) as [->|Hne].
  - rewrite Hl, list_lookup_insert_eq by (by eapply lookup_lt_Some). done.
  - rewrite list_lookup_insert_ne by done. by destruct (layers st !! j).
Qed.

Lemma select_onChange_hidden index act st :
  (0 < index)%nat → (S index < layerCount st)%nat →
  LayerCard_select_onChange index act st = updateAct index act st.
Proof.
  intros H0 Hlast. unfold LayerCard_select_onChange.
  destruct (lookup_lt_is_Some_2 (layers st) index) as [l ->]; [unfold layerCount in *; lia|].
  rewrite isOutput_spec by lia. unfold isInput.
  destruct (Nat.eqb_spec index 0); [lia|].
  by rewrite bool_decide_eq_false_2 by lia.
Qed.

Lemma select_onChange_guarded index act st :
  (index = 0 ∨ S index = layerCount st)%nat →
  LayerCard_select_onChange index act st = st.
Proof.
  intros Hcase. unfold LayerCard_select_onChange.
  destruct (layers st !! index) as [l|] eqn:Hl; [|done].
  apply lookup_lt_Some in Hl. fold (layerCount st) in Hl.
  rewrite isOutput_spec by lia. unfold isInput.
  destruct (Nat.eqb_spec index 0); [done|]. cbn [negb andb].
  by rewrite bool_decide_eq_true_2 by lia.
Qed.

(** C3, as the code has it: the activation select never fails.  The
    input card and the output card have no select, and the state stays as
    it was; on a hidden card the select replaces the activation of the
    layer at [index] and nothing else: same width, same other layers, same
    selection. *)
Theorem setActivation_guarded (index : nat) (act : string) (st : AppState) :
  (∀ e, setActivation index act st ≠ Thrown e)
  ∧ ((index = 0 ∨ S index = layerCount st)%nat → setActivation index act st = Returned st)
  ∧ (∀ l, (0 < index)%nat → (S index < layerCount st)%nat → layers st !! index = Some l →
       setActivation index act st
       = Returned (mkApp (<[index := mkLayer (nodes l) act]> (layers st)) (sel st))).
Proof.
  unfold setActivation. split; [done|split].
  - intros Hcase. by rewrite select_onChange_guarded.
  - intros l H0 Hlast Hl. by rewrite select_onChange_hidden, (updateAct_insert _ _ _ l).
Qed.

(** The second hidden layer of the default architecture goes from Tanh
    to Sigmoid; the select cannot touch the input layer. *)
Lemma setActivation_guarded_witness :
  setActivation 2 "Sigmoid" initialApp
  = Returned (mkApp [mkLayer 3 "Linear"; mkLayer 5 "ReLU"; mkLayer 4 "Sigmoid";
                     mkLayer 2 "Softmax"] 1)
  ∧ setActivation 0 "Sigmoid" initialApp = Returned initialApp.
Proof.
  split.
  - apply (proj2 (proj2 (setActivation_guarded 2 "Sigmoid" initialApp)) (mkLayer 4 "Tanh"));
      [cbn; lia | cbn; lia | reflexivity].
  - apply (proj1 (proj2 (setActivation_guarded 0 "Sigmoid" initialApp))). by left.
Defined.

(** C3, as stated, fails: on the input card and on the output card of
    the default architecture the call returns, with the state as it
    was. *)
Lemma setActivation_never_InvalidOperation :
  (setActivation 0 "Tanh" initialApp = Returned initialApp
   ∧ setActivation 0 "Tanh" initialApp ≠ Thrown InvalidOperation)
  ∧ (setActivation 3 "Tanh" initialApp = Returned initialApp
     ∧ setActivation 3 "Tanh" initialApp ≠ Thrown InvalidOperation).
Proof. repeat split; (reflexivity || discriminate). Qed.

(** The guard lives in the card only: called on index 3, [updateAct]
    itself overwrites the output layer's Softmax. *)
Example updateAct_unguarded :
  layers (updateAct 3 "Tanh" initialApp)
  = [mkLayer 3 "Linear"; mkLayer 5 "ReLU"; mkLayer 4 "Tanh"; mkLayer 2 "Tanh"].
Proof. reflexivity. Qed.

(** ** Loss selection *)

Lemma LossPanel_effect_stable K st :
  LossPanel_effect K (LossPanel_effect K st) = LossPanel_effect K st.
Proof.
  unfold LossPanel_effect.
  destruct (requiresBinary (LOSSES (lossKey st)) && not_two K) eqn:E; cbn; [done|].
  by rewrite E.
Qed.

Lemma not_two_spec K : not_two K = true ↔ K ≠ 2.
Proof. unfold not_two. destruct (Z.eqb_spec K 2); cbn; split; (done || congruence). Qed.

Lemma isDisabled_false K key :
  isDisabled K key = false ↔ requiresBinary (LOSSES key) = false ∨ K = 2.
Proof.
  unfold isDisabled, not_two.
  destruct (requiresBinary (LOSSES key)), (Z.eqb_spec K 2); cbn; split; intros; try done;
    try (by left); try (by right). by destruct H.
Qed.

(** The effect that runs after an accepted click changes nothing. *)
Lemma LossPanel_effect_after_click K key st :
  isDisabled K key = false →
  LossPanel_effect K (LossPanel_onClick K key st) = LossPanel_onClick K key st.
Proof.
  intros Hen. unfold LossPanel_onClick. rewrite Hen. cbn [negb].
  unfold LossPanel_effect. cbn [lossKey]. fold (isDisabled K key). by rewrite Hen.
Qed.

(** The output width after a width change of the output layer. *)
Lemma outputNodes_updateNodes_last a idx delta l :
  layers a !! idx = Some l → S idx = layerCount a →
  outputNodes (updateNodes idx delta a)
  = Some (Z.max MIN_NODES (Z.min MAX_NODES (nodes l + delta))).
Proof.
  intros Hl Hlast. unfold outputNodes.
  replace (layerCount (updateNodes idx delta a)) with (S idx)
    by (rewrite Hlast; unfold layerCount, updateNodes; cbn [layers]; by rewrite length_imap).
  rewrite updateNodes_lookup, Hl. cbn. by rewrite Nat.eqb_refl.
Qed.

Lemma on_architecture_runs_effect h a st newK :
  outputNodes (h a) = Some newK →
  on_architecture h (mkSession a st) = Some (mkSession (h a) (LossPanel_effect newK st)).
Proof. intros HK. unfold on_architecture. cbn [app panel]. by rewrite HK. Qed.

Lemma on_select_clicks key a st K :
  outputNodes a = Some K →
  on_select key (mkSession a st) = Some (mkSession a (LossPanel_onClick K key st)).
Proof. intros HK. unfold on_select. cbn [app panel]. by rewrite HK. Qed.

(** C4: [select K key] leaves the state as it is when the descriptor of
    [key] requires a binary output and [K] is not 2, and otherwise makes
    [key] the active loss, which the effect that follows leaves in place;
    [architectureChanged newK] moves the active loss to [ce] when its
    descriptor requires a binary output and [newK] is not 2, and otherwise
    leaves the state as it is; running it again changes nothing more.
    On the page these are the only transitions of the selection: a handler
    [h] of [App] that leaves an output layer of width [newK] applies [h]
    to the architecture and moves the active loss to [ce] exactly when it
    requires a binary output and [newK] is not 2, otherwise the selection
    is the one before; in particular a width change of an output layer of
    two nodes by a non-zero [delta] forces [ce] when the active loss
    requires a binary output; and a click on the button of [key] at output
    width [K] changes nothing when [key] requires a binary output and [K]
    is not 2, and otherwise selects [key] and leaves the architecture
    alone. *)
Theorem loss_selection_transitions (K newK : Z) (key : LossKey) (st : LossPanelState) :
  (requiresBinary (LOSSES key) = true → K ≠ 2 → select K key st = st)
  ∧ ((requiresBinary (LOSSES key) = false ∨ K = 2) →
       select K key st = mkPanel key (params st)
       ∧ LossPanel_effect K (select K key st) = select K key st)
  ∧ (requiresBinary (LOSSES (lossKey st)) = true → newK ≠ 2 →
       architectureChanged newK st = mkPanel ce (params st))
  ∧ ((requiresBinary (LOSSES (lossKey st)) = false ∨ newK = 2) →
       architectureChanged newK st = st)
  ∧ architectureChanged newK (architectureChanged newK st) = architectureChanged newK st
  ∧ (∀ (a : AppState) (h : AppState → AppState),
       outputNodes (h a) = Some newK →
       requiresBinary (LOSSES (lossKey st)) = true → newK ≠ 2 →
       on_architecture h (mkSession a st)
       = Some (mkSession (h a) (mkPanel ce (params st))))
  ∧ (∀ (a : AppState) (h : AppState → AppState),
       outputNodes (h a) = Some newK →
       requiresBinary (LOSSES (lossKey st)) = false ∨ newK = 2 →
       on_architecture h (mkSession a st) = Some (mkSession (h a) st))
  ∧ (∀ (a : AppState) (idx : nat) (delta : Z) (l : Layer),
       layers a !! idx = Some l → S idx = layerCount a → nodes l = 2 → delta ≠ 0 →
       requiresBinary (LOSSES (lossKey st)) = true →
       outputNodes a = Some 2
       ∧ outputNodes (updateNodes idx delta a) ≠ Some 2
       ∧ on_architecture (updateNodes idx delta) (mkSession a st)
         = Some (mkSession (updateNodes idx delta a) (mkPanel ce (params st))))
  ∧ (∀ a : AppState,
       outputNodes a = Some K → requiresBinary (LOSSES key) = true → K ≠ 2 →
       on_select key (mkSession a st) = Some (mkSession a st))
  ∧ (∀ a : AppState,
       outputNodes a = Some K → requiresBinary (LOSSES key) = false ∨ K = 2 →
       on_select key (mkSession a st) = Some (mkSession a (mkPanel key (params st)))).
Proof.
  assert (Hforce : ∀ k, requiresBinary (LOSSES (lossKey st)) = true → k ≠ 2 →
            LossPanel_effect k st = mkPanel ce (params st)).
  { intros k Hreq Hk. apply not_two_spec in Hk.
    unfold LossPanel_effect. by rewrite Hreq, Hk. }
  assert (Hkeep : ∀ k, requiresBinary (LOSSES (lossKey st)) = false ∨ k = 2 →
            LossPanel_effect k st = st).
  { intros k Hcase. apply isDisabled_false in Hcase.
    unfold LossPanel_effect. fold (isDisabled k (lossKey st)). by rewrite Hcase. }
  assert (Hrefuse : requiresBinary (LOSSES key) = true → K ≠ 2 →
            LossPanel_onClick K key st = st).
  { intros Hreq HK. apply not_two_spec in HK.
    unfold LossPanel_onClick, isDisabled. by rewrite Hreq, HK. }
  assert (Haccept : requiresBinary (LOSSES key) = false ∨ K = 2 →
            LossPanel_onClick K key st = mkPanel key (params st)).
  { intros Hcase. apply isDisabled_false in Hcase.
    unfold LossPanel_onClick. by rewrite Hcase. }
  unfold select, architectureChanged.
  split; [exact Hrefuse|]. split.
  { intros Hcase. split; [by apply Haccept|].
    apply LossPanel_effect_after_click. by apply isDisabled_false. }
  split; [apply Hforce|]. split; [apply Hkeep|].
  split; [apply LossPanel_effect_stable|].
  split.
  { intros a h HK Hreq Hne. rewrite (on_architecture_runs_effect h a st newK HK).
    by rewrite Hforce. }
  split.
  { intros a h HK Hcase. rewrite (on_architecture_runs_effect h a st newK HK).
    by rewrite Hkeep. }
  split.
  { intros a idx delta l Hl Hlast Hw Hdelta Hreq.
    pose proof (outputNodes_updateNodes_last a idx delta l Hl Hlast) as HK'.
    assert (Hne : Z.max MIN_NODES (Z.min MAX_NODES (nodes l + delta)) ≠ 2)
      by (unfold MIN_NODES, MAX_NODES; lia).
    split; [|split].
    - unfold outputNodes. rewrite <- Hlast, Hl. cbn. by rewrite Hw.
    - rewrite HK'. by intros [= ?].
    - rewrite (on_architecture_runs_effect _ a st _ HK'). by rewrite Hforce. }
  split.
  - intros a HK Hreq Hne. rewrite (on_select_clicks key a st K HK).
    by rewrite Hrefuse.
  - intros a HK Hcase. rewrite (on_select_clicks key a st K HK).
    by rewrite Haccept.
Qed.

(** With three outputs the button of [bce] is dead and [focal] can be
    chosen; an active [bce] falls back to [ce] when the output layer grows
    from two to three nodes, an active [focal] stays; on the page, with
    [bce] active on the default architecture, one more node in the output
    layer brings the selection back to [ce], and [bce] is then refused. *)
Lemma loss_selection_transitions_witness :
  select 3 bce initialPanel = initialPanel
  ∧ select 3 focal initialPanel = mkPanel focal (params initialPanel)
  ∧ architectureChanged 3 (select 2 bce initialPanel) = initialPanel
  ∧ architectureChanged 3 (select 2 focal initialPanel) = select 2 focal initialPanel
  ∧ on_architecture (updateNodes 3 1) (mkSession initialApp (select 2 bce initialPanel))
    = Some (mkSession (updateNodes 3 1 initialApp) initialPanel)
  ∧ on_select bce (mkSession (updateNodes 3 1 initialApp) initialPanel)
    = Some (mkSession (updateNodes 3 1 initialApp) initialPanel).
Proof.
  split; [|split; [|split; [|split; [|split]]]].
  - apply (proj1 (loss_selection_transitions 3 3 bce initialPanel)); [reflexivity|lia].
  - apply (proj1 (proj2 (loss_selection_transitions 3 3 focal initialPanel))). by left.
  - apply (proj1 (proj2 (proj2
             (loss_selection_transitions 2 3 bce (select 2 bce initialPanel)))));
      [reflexivity|lia].
  - apply (proj1 (proj2 (proj2 (proj2
             (loss_selection_transitions 2 3 bce (select 2 focal initialPanel)))))).
    by left.
  - pose proof (loss_selection_transitions 2 3 bce (select 2 bce initialPanel))
      as (_ & _ & _ & _ & _ & _ & _ & Hresize & _).
    apply (Hresize initialApp 3%nat 1 (mkLayer 2 "Softmax"));
      [reflexivity|reflexivity|reflexivity|lia|reflexivity].
  - pose proof (loss_selection_transitions 3 3 bce initialPanel)
      as (_ & _ & _ & _ & _ & _ & _ & _ & Hrefused & _).
    apply (Hrefused (updateNodes 3 1 initialApp)); [reflexivity|reflexivity|lia].
Defined.

(** The scenario of the loss buttons on the default architecture (two
    outputs): [bce] can be chosen; widening the output layer to three
    nodes sends the selection back to [ce]; [bce] is then refused; after
    narrowing the output layer to two nodes it can be chosen again. *)
Example loss_selection_scenario :
  let s1 : option Session := on_select bce initialSession in
  let s2 : option Session := s1 ≫= on_architecture (updateNodes 3 1) in
  let s3 : option Session := s2 ≫= on_select bce in
  let s4 : option Session := s3 ≫= on_architecture (updateNodes 3 (-1)) in
  let s5 : option Session := s4 ≫= on_select bce in
  (lossKey ∘ panel <$> s1) = Some bce
  ∧ (lossKey ∘ panel <$> s2) = Some ce
  ∧ (lossKey ∘ panel <$> s3) = Some ce
  ∧ (lossKey ∘ panel <$> s4) = Some ce
  ∧ (lossKey ∘ panel <$> s5) = Some bce.
Proof. repeat split. Qed.

(** ** The architecture invariant *)

Lemma updateAct_length idx act st : layerCount (updateAct idx act st) = layerCount st.
Proof. unfold layerCount, updateAct. cbn [layers]. apply length_imap. Qed.

Lemma select_onChange_length idx act st :
  layerCount (LayerCard_select_onChange idx act st) = layerCount st.
Proof.
  unfold LayerCard_select_onChange.
  destruct (layers st !! idx); [|done].
  destruct (negb (isInput idx) && negb (isOutput idx (layerCount st))); [|done].
  apply updateAct_length.
Qed.

Lemma addLayer_ok st : architecture_ok st → architecture_ok (addLayer st).
Proof.
  intros [[Hlo Hhi] Hw].
  destruct (decide (MAX_LAYERS ≤ layerCount st)%nat) as [Hmax|Hmax].
  { rewrite addLayer_at_max by done. by split. }
  destruct (layers st) as [|out front _] eqn:Hl using rev_ind.
  { unfold layerCount in Hlo. rewrite Hl in Hlo. cbn in Hlo. lia. }
  rewrite (addLayer_below_max st front out Hl) by lia.
  unfold architecture_ok, layerCount, widths in *. cbn [layers].
  rewrite Hl in *. rewrite length_app in *. cbn [length] in *.
  split; [lia|].
  rewrite fmap_app, Forall_app in *. destruct Hw as [Hfront Hout].
  split; [done|]. cbn. constructor; [width_bounds|done].
Qed.

Lemma remove_onClick_ok index st :
  architecture_ok st → architecture_ok (LayerCard_remove_onClick index st).
Proof.
  intros [[Hlo Hhi] Hw].
  destruct (layers st !! index) as [l|] eqn:Hl;
    [|unfold LayerCard_remove_onClick; rewrite Hl; by split].
  apply lookup_lt_Some in Hl. fold (layerCount st) in Hl.
  destruct (decide (0 < index ∧ S index < layerCount st ∧ 3 < layerCount st)%nat)
    as [(H0 & Hlast & Hmin)|Hno].
  - rewrite remove_onClick_hidden by done.
    unfold architecture_ok, layerCount, widths in *.
    rewrite removeLayer_layers, length_delete by (apply lookup_lt_is_Some_2; lia).
    split; [lia|].
    rewrite delete_take_drop, fmap_app, Forall_app.
    split; [rewrite fmap_take; by apply Forall_take|rewrite fmap_drop; by apply Forall_drop].
  - rewrite remove_onClick_guarded; [by split|lia].
Qed.

Lemma App_handle_ok st ev : architecture_ok st → architecture_ok (App_handle st ev).
Proof.
  intros Hok. destruct ev as [| |index|index delta|index act]; cbn [App_handle].
  - split; width_bounds.
  - by apply addLayer_ok.
  - by apply remove_onClick_ok.
  - destruct Hok as [Hn Hw]. split; [|by apply updateNodes_keeps_widths_ok].
    unfold layerCount, updateNodes. cbn [layers]. by rewrite length_imap.
  - destruct Hok as [Hn Hw]. split.
    + by rewrite select_onChange_length.
    + by rewrite select_onChange_widths.
Qed.

(** Whatever the user does, the architecture has between three and six
    layers and every width is between 1 and 8. *)
Lemma App_run_ok evs : architecture_ok (App_run evs initialApp).
Proof.
  assert (Hinit : architecture_ok initialApp).
  { split; width_bounds. }
  unfold App_run. revert Hinit. generalize initialApp as st.
  induction evs as [|ev evs IH]; intros st Hok; [done|].
  cbn [foldl]. apply IH. by apply App_handle_ok.
Qed.

(** ** compTex *)

Lemma wrap_outer_app ls : ∀ i l inner,
  wrap_outer i (ls ++ [l]) inner
  = wrap_outer i ls (compTex_wrap (compTex_fn (activation l)) (i + length ls) inner).
Proof.
  induction ls as [|l' ls IH]; intros i l inner.
  - cbn. by rewrite Nat.add_0_r.
  - change (compTex_wrap (compTex_fn (activation l')) i (wrap_outer (S i) (ls ++ [l]) inner)
            = compTex_wrap (compTex_fn (activation l')) i
                (wrap_outer (S i) ls
                   (compTex_wrap (compTex_fn (activation l)) (i + S (length ls)) inner))).
    rewrite IH. by replace (S i + length ls)%nat with (i + S (length ls))%nat by lia.
Qed.

(** After [k] iterations from [i = k] down to 1, the layers 1 to [k] are
    wrapped around the start value, layer 1 outermost. *)
Lemma compTex_loop l0 rest : ∀ k inner,
  (k ≤ length rest)%nat →
  for_down k (compTex_body (l0 :: rest)) inner = wrap_outer 1 (take k rest) inner.
Proof.
  induction k as [|k IH]; intros inner Hk; [done|].
  cbn [for_down]. rewrite IH by lia.
  destruct (lookup_lt_is_Some_2 rest k) as [l Hl]; [lia|].
  rewrite (take_S_r _ _ _ Hl), wrap_outer_app.
  rewrite length_take, Nat.min_l by lia.
  unfold compTex_body. change ((l0 :: rest) !! S k) with (rest !! k). by rewrite Hl.
Qed.

Lemma compTex_code_nesting l0 rest :
  compTex (l0 :: rest) = "f(x) = " +:+ wrap_outer 1 rest "x".
Proof.
  unfold compTex, compTex_inner.
  replace (length (l0 :: rest) - 1)%nat with (length rest) by (cbn [length]; lia).
  by rewrite compTex_loop, firstn_all by lia.
Qed.

(** C7, on the code: in the string [compTex] builds, the wrapper of
    layer 1 is the outermost one and the wrapper of the output layer (the
    softmax) is the innermost one, around [x].  On the three-layer network
    with activations ReLU and Softmax the string begins with the ReLU
    symbol, not with softmax; the nesting of the forward pass, which the
    per-layer equations describe, is the other way round. *)
Theorem compTex_softmax_innermost :
  let net := [mkLayer 3 "Linear"; mkLayer 4 "ReLU"; mkLayer 2 "Softmax"] in
  (∀ l0 rest, compTex (l0 :: rest) = "f(x) = " +:+ wrap_outer 1 rest "x")
  ∧ compTex net
    = "f(x) = \sigma_{\scriptscriptstyle\text{ReLU}}\!\bigl(W^{(1)}\operatorname{softmax}\!\bigl(W^{(2)}x + b^{(2)}\bigr) + b^{(1)}\bigr)"
  ∧ starts_with "f(x) = \operatorname{softmax}" (compTex net) = false
  ∧ forward_nesting net
    = "f(x) = \operatorname{softmax}\!\bigl(W^{(2)}\sigma_{\scriptscriptstyle\text{ReLU}}\!\bigl(W^{(1)}x + b^{(1)}\bigr) + b^{(2)}\bigr)"
  ∧ compTex net ≠ forward_nesting net.
Proof.
  cbv zeta. split; [exact compTex_code_nesting|].
  repeat split. discriminate.
Qed.

(** ** Gradient formulas *)

Lemma string_app_assoc (s1 s2 s3 : string) : (s1 +:+ s2) +:+ s3 = s1 +:+ (s2 +:+ s3).
Proof.
  induction s1 as [|a s1 IH]; [done|].
  change (String a ((s1 +:+ s2) +:+ s3) = String a (s1 +:+ (s2 +:+ s3))). by f_equal.
Qed.

Lemma Half_toR_0 : Half_toR (Half_of_Z 0) = 0%R.
Proof.
  unfold Half_toR, Half_of_Z. cbn [twice].
  change (2 * 0) with 0. unfold Rdiv. apply Rmult_0_l.
Qed.

Lemma Rpower_exp_0 (x : R) : Rpower x 0 = 1%R.
Proof. unfold Rpower. rewrite Rmult_0_l. apply exp_0. Qed.

(** The string the catalogue prints for the focal loss is the rendering
    of [focal_grad_rhs]. *)
Lemma focal_gradFormula_render K p :
  gradFormula (LOSSES focal) K p
  = focal_grad_lhs +:+ " = " +:+ render (focal_grad_rhs (gamma p)).
Proof.
  cbn [LOSSES gradFormula].
  unfold focal_grad_rhs, focal_modulating, focal_correction, one_minus_pow, residual,
    focal_grad_lhs.
  cbn [render render_sym].
  change (Half_toString (Half_of_Z 1)) with "1".
  generalize (Half_toString (gamma p)) as g.
  generalize (Half_toString (Half_max (Half_of_Z 0) (Half_sub (gamma p) (Half_of_Z 1)))) as g'.
  intros g' g. rewrite !string_app_assoc. vm_compute. reflexivity.
Qed.

Lemma ce_gradFormula_render K p :
  gradFormula (LOSSES ce) K p = ce_grad_lhs +:+ " = " +:+ render residual.
Proof. reflexivity. Qed.

Lemma focal_modulating_at_0 env : denote env (focal_modulating (Half_of_Z 0)) = 1%R.
Proof.
  unfold focal_modulating, one_minus_pow. cbn [denote].
  rewrite Half_toR_0. apply Rpower_exp_0.
Qed.

Lemma focal_correction_at_0 env : denote env (focal_correction (Half_of_Z 0)) = 0%R.
Proof.
  unfold focal_correction. cbn [denote]. rewrite Half_toR_0. apply Rmult_0_l.
Qed.

Lemma focal_gradFormula_read K g2 :
  0 ≤ g2 ≤ 10 →
  read_formula (gradFormula (LOSSES focal) K (mkLossParams (mkHalf g2)))
  = Some ("\frac{\partial \mathcal{L}}{\partial z_i}", two_term_formula g2).
Proof.
  intros Hg.
  assert (Hcases : g2 = 0 ∨ g2 = 1 ∨ g2 = 2 ∨ g2 = 3 ∨ g2 = 4 ∨ g2 = 5
                   ∨ g2 = 6 ∨ g2 = 7 ∨ g2 = 8 ∨ g2 = 9 ∨ g2 = 10) by lia.
  repeat (destruct Hcases as [-> | Hcases]; [vm_compute; reflexivity|]).
  subst g2. vm_compute. reflexivity.
Qed.

Lemma Half_toR_exponent g2 :
  Half_toR (mkHalf (Z.max 0 (g2 - 2))) = Rmax 0 (IZR g2 / 2 - 1).
Proof.
  unfold Half_toR. cbn [twice].
  destruct (Z.max_spec 0 (g2 - 2)) as [[Hlt ->]|[Hle ->]].
  - rewrite minus_IZR. apply IZR_lt in Hlt. rewrite minus_IZR in Hlt.
    rewrite Rmax_right by lra. lra.
  - apply IZR_le in Hle. rewrite minus_IZR in Hle.
    rewrite Rmax_left by lra. lra.
Qed.

Lemma two_term_formula_value env g2 :
  denote env (two_term_formula g2) = two_term_value env (IZR g2 / 2).
Proof.
  unfold two_term_formula, two_term_value. cbn [denote].
  rewrite Half_toR_exponent.
  replace (Half_toR (mkHalf 2)) with 1%R by (unfold Half_toR; cbn [twice]; lra).
  reflexivity.
Qed.

Lemma two_term_value_at_0 env : two_term_value env 0 = (env yhat_i - env y_i)%R.
Proof. unfold two_term_value. rewrite Rpower_exp_0. lra. Qed.

(** C8: for every value of the gamma slider the gradient formula of the
    focal loss is the difference of two terms, the modulating factor
    times the residual and a correction term that carries the logarithm;
    at gamma = 0 the modulating factor is 1 and the correction term is 0,
    so that the formula has the value of the residual [yhat_i - y_i], which
    is the right-hand side of the cross-entropy gradient formula.
    In full: the string printed at gamma = 0 carries the exponents 0 and
    the coefficient 0; read back with the usual precedences, the string
    printed for the slider value [g2 / 2] is the two-term expression with
    the numerals [gamma], [gamma] and [max(0, gamma - 1)], and the string
    of cross-entropy is the residual; the two-term expression has the
    value [(1 - p)^gamma (yhat_i - y_i) - gamma (1 - p)^max(0, gamma - 1)
    log(p) p (delta - yhat_i)], which at gamma = 0 is [yhat_i - y_i]. *)
Theorem focal_gradient_two_terms :
  (∀ K p,
      gradFormula (LOSSES focal) K p
      = focal_grad_lhs +:+ " = "
        +:+ render (TMinus (TJuxt (focal_modulating (gamma p)) (TParen residual))
                           (focal_correction (gamma p))))
  ∧ (∀ K p, gradFormula (LOSSES ce) K p = ce_grad_lhs +:+ " = " +:+ render residual)
  ∧ (∀ env : Sym → R,
        denote env (focal_modulating (Half_of_Z 0)) = 1%R
        ∧ denote env (focal_correction (Half_of_Z 0)) = 0%R
        ∧ denote env (focal_grad_rhs (Half_of_Z 0)) = denote env residual
        ∧ denote env residual = (env yhat_i - env y_i)%R)
  ∧ (∀ K,
        gradFormula (LOSSES focal) K (mkLossParams (mkHalf 0))
        = "\frac{\partial \mathcal{L}}{\partial z_i} = (1-\hat{y}_{y^*})^{0}(\hat{y}_i - y_i) - 0(1-\hat{y}_{y^*})^{0}\log(\hat{y}_{y^*})\hat{y}_{y^*}(\delta_{i,y^*} - \hat{y}_i)")
  ∧ (∀ K g2,
        0 ≤ g2 ≤ 10 →
        read_formula (gradFormula (LOSSES focal) K (mkLossParams (mkHalf g2)))
        = Some ("\frac{\partial \mathcal{L}}{\partial z_i}", two_term_formula g2))
  ∧ (∀ K p,
        read_formula (gradFormula (LOSSES ce) K p)
        = Some ("\frac{\partial \mathcal{L}}{\partial z^{(L)}_i}",
                TMinus (TSym yhat_i) (TSym y_i)))
  ∧ (∀ (env : Sym → R) (g2 : Z),
        denote env (two_term_formula g2) = two_term_value env (IZR g2 / 2))
  ∧ (∀ env : Sym → R,
        Rpower (1 - env yhat_star) 0 = 1%R
        ∧ two_term_value env 0 = (env yhat_i - env y_i)%R
        ∧ denote env (two_term_formula 0) = denote env (TMinus (TSym yhat_i) (TSym y_i))).
Proof.
  split; [exact focal_gradFormula_render|split; [exact ce_gradFormula_render|]].
  split.
  { intros env. split; [apply focal_modulating_at_0|split; [apply focal_correction_at_0|]].
    split; [|reflexivity].
    unfold focal_grad_rhs.
    change (denote env (focal_modulating (Half_of_Z 0)) * denote env residual
            - denote env (focal_correction (Half_of_Z 0)) = denote env residual)%R.
    rewrite focal_modulating_at_0, focal_correction_at_0. lra. }
  split; [intros K; vm_compute; reflexivity|].
  split; [exact focal_gradFormula_read|].
  split; [intros K p; vm_compute; reflexivity|].
  split; [exact two_term_formula_value|].
  intros env. split; [apply Rpower_exp_0|]. split; [apply two_term_value_at_0|].
  rewrite two_term_formula_value.
  replace (IZR 0 / 2)%R with 0%R by lra.
  rewrite two_term_value_at_0. reflexivity.
Qed.

(** The formula printed at the default gamma = 2, read back. *)
Lemma focal_gradient_two_terms_witness :
  read_formula (gradFormula (LOSSES focal) 2 (mkLossParams (mkHalf 4)))
  = Some ("\frac{\partial \mathcal{L}}{\partial z_i}", two_term_formula 4).
Proof.
  pose proof focal_gradient_two_terms as (_ & _ & _ & _ & Hread & _).
  apply Hread. lia.
Defined.

(** * Further properties of the architecture controls *)

Lemma initialApp_architecture_ok : architecture_ok initialApp.
Proof. split; width_bounds. Qed.

Lemma minus_onClick_cases index st :
  LayerCard_minus_onClick index st = st
  ∨ LayerCard_minus_onClick index st = updateNodes index (-1) st.
Proof.
  unfold LayerCard_minus_onClick.
  destruct (layers st !! index); [|by left]. destruct (_ <=? _); auto.
Qed.

Lemma plus_onClick_cases index st :
  LayerCard_plus_onClick index st = st
  ∨ LayerCard_plus_onClick index st = updateNodes index 1 st.
Proof.
  unfold LayerCard_plus_onClick.
  destruct (layers st !! index); [|by left]. destruct (_ >=? _); auto.
Qed.

Lemma updateNodes_architecture_ok idx delta st :
  architecture_ok st → architecture_ok (updateNodes idx delta st).
Proof.
  intros [Hn Hw]. split; [|by apply updateNodes_keeps_widths_ok].
  unfold layerCount, updateNodes. cbn [layers]. by rewrite length_imap.
Qed.

Lemma UI_handle_architecture_ok st ev :
  architecture_ok st → architecture_ok (UI_handle st ev).
Proof.
  intros Hok. destruct ev as [| |index|index|index|index act|li]; cbn [UI_handle].
  - apply initialApp_architecture_ok.
  - by apply addLayer_ok.
  - by apply remove_onClick_ok.
  - destruct (minus_onClick_cases index st) as [-> | ->];
      [done|by apply updateNodes_architecture_ok].
  - destruct (plus_onClick_cases index st) as [-> | ->];
      [done|by apply updateNodes_architecture_ok].
  - destruct Hok as [Hn Hw]. split.
    + by rewrite select_onChange_length.
    + by rewrite select_onChange_widths.
  - unfold onSelect. by destruct (layers st !! li).
Qed.

Lemma select_onChange_sel idx act st : sel (LayerCard_select_onChange idx act st) = sel st.
Proof.
  unfold LayerCard_select_onChange.
  destruct (layers st !! idx); [|done].
  by destruct (negb (isInput idx) && negb (isOutput idx (layerCount st))).
Qed.

Lemma addLayer_sel st : sel (addLayer st) = sel st.
Proof. unfold addLayer. by destruct (isAtMaxLayers st). Qed.

Lemma addLayer_length st :
  (layerCount st ≤ layerCount (addLayer st))%nat.
Proof.
  unfold addLayer. destruct (isAtMaxLayers st); [done|].
  unfold layerCount, splice_insert. cbn [layers].
  rewrite length_app. cbn [length]. rewrite length_take, length_drop. lia.
Qed.

(** What a click on a remove button does to the selection and to the
    number of layers. *)
Lemma remove_onClick_effect index st :
  LayerCard_remove_onClick index st = st
  ∨ ((3 < layerCount st)%nat
     ∧ layerCount (LayerCard_remove_onClick index st) = (layerCount st - 1)%nat
     ∧ sel (LayerCard_remove_onClick index st)
       = Z.max 1 (Z.min (sel st) (Z.of_nat (layerCount st) - 3))).
Proof.
  destruct (layers st !! index) as [l|] eqn:Hl;
    [|left; unfold LayerCard_remove_onClick; by rewrite Hl].
  apply lookup_lt_Some in Hl. fold (layerCount st) in Hl.
  destruct (decide (0 < index ∧ S index < layerCount st ∧ 3 < layerCount st)%nat)
    as [(H0 & Hlast & Hmin)|Hno].
  - right. rewrite remove_onClick_hidden by done. split; [done|]. split; [|done].
    unfold layerCount in *. rewrite removeLayer_layers, length_delete; [done|].
    apply lookup_lt_is_Some_2. lia.
  - left. apply remove_onClick_guarded. lia.
Qed.

Lemma UI_handle_sel_ok st ev : sel_ok st → sel_ok (UI_handle st ev).
Proof.
  unfold sel_ok. intros Hs.
  destruct ev as [| |index|index|index|index act|li]; cbn [UI_handle].
  - cbn. lia.
  - rewrite addLayer_sel. pose proof (addLayer_length st). lia.
  - destruct (remove_onClick_effect index st) as [-> | (Hmin & -> & ->)]; lia.
  - destruct (minus_onClick_cases index st) as [-> | ->]; [done|].
    unfold layerCount, updateNodes. cbn [sel layers]. by rewrite length_imap.
  - destruct (plus_onClick_cases index st) as [-> | ->]; [done|].
    unfold layerCount, updateNodes. cbn [sel layers]. by rewrite length_imap.
  - by rewrite select_onChange_sel, select_onChange_length.
  - unfold onSelect. destruct (layers st !! li) eqn:Hl; [|done].
    apply lookup_lt_Some in Hl. unfold layerCount. cbn [sel layers]. lia.
Qed.

(** After any sequence of events of the architecture column and of the
    graph, started on the default architecture, the selected index names
    one of the current layers, of which there are three to six. *)
Theorem selection_stays_valid (evs : list UIEvent) :
  let st := UI_run evs initialApp in
  0 ≤ sel st < Z.of_nat (layerCount st) ∧ (3 ≤ layerCount st ≤ 6)%nat.
Proof.
  cbv zeta. unfold UI_run.
  assert (Hinit : architecture_ok initialApp ∧ sel_ok initialApp).
  { split; [apply initialApp_architecture_ok|unfold sel_ok; cbn; lia]. }
  revert Hinit. generalize initialApp as st.
  induction evs as [|ev evs IH]; intros st [Hok Hs].
  - cbn [foldl]. split; [exact Hs|exact (proj1 Hok)].
  - cbn [foldl]. apply IH. split;
      [by apply UI_handle_architecture_ok|by apply UI_handle_sel_ok].
Qed.

(** A removal that takes effect leaves a hidden layer selected, whatever
    was selected before. *)
Theorem removal_selects_hidden (index : nat) (st : AppState) :
  LayerCard_remove_onClick index st ≠ st →
  let st' := LayerCard_remove_onClick index st in
  layerCount st' = (layerCount st - 1)%nat
  ∧ 1 ≤ sel st' ≤ Z.of_nat (layerCount st') - 2.
Proof.
  intros Hne st'. subst st'.
  destruct (remove_onClick_effect index st) as [Heq | (Hmin & Hn & Hs)]; [done|].
  rewrite Hn, Hs. split; [done|]. lia.
Qed.

Lemma removal_selects_hidden_witness :
  let st' := LayerCard_remove_onClick 2 (onSelect 3 initialApp) in
  layerCount st' = 3%nat ∧ 1 ≤ sel st' ≤ 1.
Proof.
  apply (removal_selects_hidden 2 (onSelect 3 initialApp)).
  intros Heq. apply (f_equal layerCount) in Heq. discriminate Heq.
Defined.

(** ** Which activation a layer can have *)

Lemma activation_allowed_iff i total ac :
  (0 < total)%nat →
  activation_allowed i total ac
  ↔ (i = 0%nat ∧ ac = "Linear")
    ∨ (i ≠ 0%nat ∧ S i = total ∧ ac = "Softmax")
    ∨ (i ≠ 0%nat ∧ S i ≠ total ∧ ac ∈ ACTIVATIONS).
Proof.
  intros Hpos. unfold activation_allowed, isInput.
  rewrite isOutput_spec by done.
  destruct (Nat.eqb_spec i 0) as [->|Hi].
  { split; [by left|]. intros [[_ ?]|[(? & _)|(? & _)]]; done. }
  destruct (decide (S i = total)) as [Ho|Ho].
  - rewrite bool_decide_eq_true_2 by done.
    split; [by right; left|]. intros [[? _]|[(_ & _ & ?)|(_ & ? & _)]]; done.
  - rewrite bool_decide_eq_false_2 by done.
    split; [by right; right|]. intros [[? _]|[(_ & ? & _)|(_ & _ & ?)]]; done.
Qed.

Lemma initialApp_activations_ok : activations_ok initialApp.
Proof.
  intros i l Hl. destruct i as [|[|[|[|i]]]]; cbn in Hl; simplify_eq; cbn;
    try done; set_solver.
Qed.

Lemma updateNodes_activations_ok idx delta st :
  activations_ok st → activations_ok (updateNodes idx delta st).
Proof.
  intros Hok i l. rewrite updateNodes_lookup.
  replace (layerCount (updateNodes idx delta st)) with (layerCount st)
    by (unfold layerCount, updateNodes; cbn [layers]; by rewrite length_imap).
  destruct (layers st !! i) as [l0|] eqn:Hl0; [|done]. cbn.
  intros [= <-]. specialize (Hok i l0 Hl0). by destruct (i =? idx)%nat.
Qed.

Lemma select_onChange_activations_ok idx act st :
  act ∈ ACTIVATIONS → activations_ok st →
  activations_ok (LayerCard_select_onChange idx act st).
Proof.
  intros Hact Hok i l.
  rewrite select_onChange_length.
  unfold LayerCard_select_onChange.
  destruct (layers st !! idx) as [l1|] eqn:Hidx; [|apply Hok].
  destruct (negb (isInput idx) && negb (isOutput idx (layerCount st))) eqn:Hhid; [|apply Hok].
  rewrite updateAct_lookup.
  destruct (layers st !! i) as [l0|] eqn:Hl0; [|done]. cbn.
  intros [= <-]. specialize (Hok i l0 Hl0).
  destruct (Nat.eqb_spec i idx) as [->|]; [|done].
  apply andb_true_iff in Hhid as [Hin Hout].
  unfold activation_allowed. cbn [activation].
  by destruct (isInput idx), (isOutput idx (layerCount st)).
Qed.

Lemma addLayer_activations_ok st :
  architecture_ok st → activations_ok st → activations_ok (addLayer st).
Proof.
  intros [[Hlo Hhi] _] Hok.
  destruct (decide (MAX_LAYERS ≤ layerCount st)%nat) as [Hmax|Hmax].
  { by rewrite addLayer_at_max. }
  destruct (layers st) as [|out front _] eqn:Hl using rev_ind.
  { unfold layerCount in Hlo. rewrite Hl in Hlo. cbn in Hlo. lia. }
  rewrite (addLayer_below_max st front out Hl) by lia.
  assert (Hn : layerCount st = S (length front)).
  { unfold layerCount. rewrite Hl, length_app. cbn. lia. }
  intros i l. unfold layerCount at 1. cbn [layers].
  rewrite length_app. cbn [length]. intros Hi.
  apply activation_allowed_iff; [lia|].
  destruct (decide (i < length front)%nat) as [Hlt|Hge].
  - rewrite lookup_app_l in Hi by done.
    specialize (Hok i l). rewrite Hl, lookup_app_l in Hok by done.
    apply Hok, activation_allowed_iff in Hi; [|lia..].
    destruct Hi as [?|[(? & ? & ?)|(? & ? & ?)]]; [by left|lia|right; right; split_and!; [done|lia|done]].
  - rewrite lookup_app_r in Hi by lia.
    destruct (i - length front)%nat as [|[|k]] eqn:Hk; cbn in Hi; simplify_eq.
    + right; right. split_and!; [lia|lia|cbn; set_solver].
    + specialize (Hok (length front) l). rewrite Hl, list_lookup_middle in Hok by done.
      specialize (Hok eq_refl).
      apply activation_allowed_iff in Hok; [|lia..].
      destruct Hok as [[? ?]|[(? & ? & ?)|(? & ? & ?)]]; [lia| |lia].
      right; left. split_and!; [lia|lia|done].
Qed.

Lemma remove_onClick_activations_ok index st :
  activations_ok st → activations_ok (LayerCard_remove_onClick index st).
Proof.
  intros Hok.
  destruct (layers st !! index) as [l0|] eqn:Hl0;
    [|unfold LayerCard_remove_onClick; by rewrite Hl0].
  apply lookup_lt_Some in Hl0. fold (layerCount st) in Hl0.
  destruct (decide (0 < index ∧ S index < layerCount st ∧ 3 < layerCount st)%nat)
    as [(H0 & Hlast & Hmin)|Hno]; [|rewrite remove_onClick_guarded; [done|lia]].
  rewrite remove_onClick_hidden by done.
  intros j l. unfold layerCount at 1.
  rewrite removeLayer_layers, length_delete by (apply lookup_lt_is_Some_2; unfold layerCount in *; lia).
  fold (layerCount st). intros Hj.
  apply activation_allowed_iff; [lia|].
  destruct (decide (j < index)%nat) as [Hlt|Hge].
  - rewrite list_lookup_delete_lt in Hj by done.
    apply Hok, activation_allowed_iff in Hj; [|lia..].
    destruct Hj as [?|[(? & ? & ?)|(? & ? & ?)]];
      [by left|lia|right; right; split_and!; [done|lia|done]].
  - rewrite list_lookup_delete_ge in Hj by lia.
    apply Hok, activation_allowed_iff in Hj; [|lia..].
    destruct Hj as [[? ?]|[(? & ? & ?)|(? & ? & ?)]]; [lia| |].
    + right; left. split_and!; [lia|lia|done].
    + right; right. split_and!; [lia|lia|done].
Qed.

Lemma UI_handle_activations_ok st ev :
  activation_offered ev → architecture_ok st → activations_ok st →
  activations_ok (UI_handle st ev).
Proof.
  intros Hev Harch Hok.
  destruct ev as [| |index|index|index|index act|li]; cbn [UI_handle].
  - apply initialApp_activations_ok.
  - by apply addLayer_activations_ok.
  - by apply remove_onClick_activations_ok.
  - destruct (minus_onClick_cases index st) as [-> | ->];
      [done|by apply updateNodes_activations_ok].
  - destruct (plus_onClick_cases index st) as [-> | ->];
      [done|by apply updateNodes_activations_ok].
  - by apply select_onChange_activations_ok.
  - unfold onSelect. by destruct (layers st !! li).
Qed.

(** When every activation chosen in a select is one of its options, then
    after any sequence of events the input layer still has activation
    Linear, the output layer Softmax, and every hidden layer one of ReLU,
    Sigmoid, Tanh and Linear. *)
Theorem activations_stay_in_place (evs : list UIEvent) :
  Forall activation_offered evs →
  ∀ i l, layers (UI_run evs initialApp) !! i = Some l →
         activation_allowed i (layerCount (UI_run evs initialApp)) (activation l).
Proof.
  intros Hevs. change (activations_ok (UI_run evs initialApp)). unfold UI_run.
  assert (Hinit : architecture_ok initialApp ∧ activations_ok initialApp).
  { split; [apply initialApp_architecture_ok|apply initialApp_activations_ok]. }
  revert Hinit. generalize initialApp as st.
  induction Hevs as [|ev evs Hev Hevs IH]; intros st [Harch Hok]; [done|].
  cbn [foldl]. apply IH. split;
    [by apply UI_handle_architecture_ok|by apply UI_handle_activations_ok].
Qed.

Lemma activations_stay_in_place_witness :
  activation_allowed 3 4 "Softmax".
Proof.
  exact (activations_stay_in_place
           [UiAddLayer; UiActivation 1 "Sigmoid"; UiRemove 2; UiSelect 0]
           ltac:(repeat constructor; cbn; set_solver)
           3%nat (mkLayer 2 "Softmax") eq_refl).
Defined.

(** ** Width buttons, and how the handlers compose *)

Lemma updateNodes_insert idx delta st l :
  layers st !! idx = Some l →
  updateNodes idx delta st
  = mkApp (<[idx := mkLayer (Z.max MIN_NODES (Z.min MAX_NODES (nodes l + delta)))
                           (activation l)]> (layers st)) (sel st).
Proof.
  intros Hl. unfold updateNodes. f_equal. apply list_eq. intros j.
  rewrite list_lookup_imap.
  destruct (Nat.eqb_spec j idx) as [->|Hne].
  - rewrite Hl, list_lookup_insert_eq by (by eapply lookup_lt_Some). done.
  - rewrite list_lookup_insert_ne by done. by destruct (layers st !! j).
Qed.

Lemma updateNodes_back idx d st l :
  layers st !! idx = Some l →
  MIN_NODES ≤ nodes l ≤ MAX_NODES → MIN_NODES ≤ nodes l + d ≤ MAX_NODES →
  updateNodes idx (- d) (updateNodes idx d st) = st.
Proof.
  intros Hl Hw Hwd. pose proof (lookup_lt_Some _ _ _ Hl) as Hlt.
  rewrite (updateNodes_insert idx d st l Hl).
  erewrite updateNodes_insert; cbn [layers sel];
    [|by rewrite list_lookup_insert_eq].
  cbn [nodes activation]. rewrite list_insert_insert_eq.
  replace (Z.max MIN_NODES (Z.min MAX_NODES
             (Z.max MIN_NODES (Z.min MAX_NODES (nodes l + d)) + - d)))
    with (nodes l) by lia.
  destruct st as [lrs s]. cbn [layers sel] in *. f_equal.
  apply list_insert_id. by destruct l.
Qed.

(** The width buttons of a card whose width is within bounds change the
    width by exactly one, or not at all at the bound they point to, and
    never clamp; a minus after a plus that took effect, and a plus after
    a minus that took effect, give back the state before. *)
Theorem width_buttons_exact (index : nat) (st : AppState) (l : Layer) :
  layers st !! index = Some l → MIN_NODES ≤ nodes l ≤ MAX_NODES →
  layers (LayerCard_plus_onClick index st) !! index
  = Some (mkLayer (if nodes l =? MAX_NODES then nodes l else nodes l + 1) (activation l))
  ∧ layers (LayerCard_minus_onClick index st) !! index
    = Some (mkLayer (if nodes l =? MIN_NODES then nodes l else nodes l - 1) (activation l))
  ∧ (nodes l < MAX_NODES →
       LayerCard_minus_onClick index (LayerCard_plus_onClick index st) = st)
  ∧ (MIN_NODES < nodes l →
       LayerCard_plus_onClick index (LayerCard_minus_onClick index st) = st).
Proof.
  intros Hl Hw. pose proof (lookup_lt_Some _ _ _ Hl) as Hlt.
  assert (Hplus : nodes l < MAX_NODES →
            LayerCard_plus_onClick index st = updateNodes index 1 st).
  { intros Hlt8. unfold LayerCard_plus_onClick. rewrite Hl.
    by destruct (Z.geb_spec (nodes l) MAX_NODES); [lia|]. }
  assert (Hminus : MIN_NODES < nodes l →
            LayerCard_minus_onClick index st = updateNodes index (-1) st).
  { intros Hgt1. unfold LayerCard_minus_onClick. rewrite Hl.
    by destruct (Z.leb_spec (nodes l) MIN_NODES); [lia|]. }
  split; [|split; [|split]].
  - destruct (Z.eqb_spec (nodes l) MAX_NODES) as [H8|H8].
    + unfold LayerCard_plus_onClick. rewrite Hl.
      destruct (Z.geb_spec (nodes l) MAX_NODES); [|lia]. rewrite Hl. by destruct l.
    + rewrite Hplus, (updateNodes_insert _ _ _ l Hl) by lia. cbn [layers].
      rewrite list_lookup_insert_eq by done. do 2 f_equal. lia.
  - destruct (Z.eqb_spec (nodes l) MIN_NODES) as [H1|H1].
    + unfold LayerCard_minus_onClick. rewrite Hl.
      destruct (Z.leb_spec (nodes l) MIN_NODES); [|lia]. rewrite Hl. by destruct l.
    + rewrite Hminus, (updateNodes_insert _ _ _ l Hl) by lia. cbn [layers].
      rewrite list_lookup_insert_eq by done. do 2 f_equal. lia.
  - intros Hlt8. rewrite Hplus by done.
    unfold LayerCard_minus_onClick.
    rewrite (updateNodes_insert _ 1 _ l Hl) at 1. cbn [layers].
    rewrite list_lookup_insert_eq by done. cbn [nodes].
    destruct (Z.leb_spec (Z.max MIN_NODES (Z.min MAX_NODES (nodes l + 1))) MIN_NODES);
      [unfold MIN_NODES, MAX_NODES in *; lia|].
    apply (updateNodes_back index 1 st l Hl Hw). lia.
  - intros Hgt1. rewrite Hminus by done.
    unfold LayerCard_plus_onClick.
    rewrite (updateNodes_insert _ (-1) _ l Hl) at 1. cbn [layers].
    rewrite list_lookup_insert_eq by done. cbn [nodes].
    destruct (Z.geb_spec (Z.max MIN_NODES (Z.min MAX_NODES (nodes l + -1))) MAX_NODES);
      [unfold MIN_NODES, MAX_NODES in *; lia|].
    change 1 with (- (-1)). apply (updateNodes_back index (-1) st l Hl Hw). lia.
Qed.

Lemma width_buttons_exact_witness :
  layers (LayerCard_plus_onClick 1 initialApp) !! 1%nat = Some (mkLayer 6 "ReLU")
  ∧ LayerCard_minus_onClick 1 (LayerCard_plus_onClick 1 initialApp) = initialApp.
Proof.
  assert (Hw : MIN_NODES ≤ nodes (mkLayer 5 "ReLU") ≤ MAX_NODES) by width_bounds.
  pose proof (width_buttons_exact 1 initialApp (mkLayer 5 "ReLU") eq_refl Hw)
    as (Hp & _ & Hpm & _).
  split; [exact Hp|apply Hpm; width_bounds].
Defined.

(** Adding a hidden layer and removing it again gives back the layers
    there were, when there were three to five of them. *)
Theorem add_then_remove_restores_layers (st : AppState) :
  (3 ≤ layerCount st < MAX_LAYERS)%nat →
  layers (LayerCard_remove_onClick (layerCount st - 1) (addLayer st)) = layers st.
Proof.
  intros [Hlo Hhi].
  destruct (layers st) as [|out front _] eqn:Hl using rev_ind.
  { unfold layerCount in Hlo. rewrite Hl in Hlo. cbn in Hlo. lia. }
  assert (Hn : layerCount st = S (length front)).
  { unfold layerCount. rewrite Hl, length_app. cbn. lia. }
  rewrite (addLayer_below_max st front out Hl) by lia.
  replace (layerCount st - 1)%nat with (length front) by lia.
  assert (Hn' : layerCount (mkApp (front ++ [mkLayer 4 "ReLU"; out]) (sel st))
                = S (S (length front))).
  { unfold layerCount. cbn [layers]. rewrite length_app. cbn. lia. }
  rewrite remove_onClick_hidden by lia.
  rewrite removeLayer_layers. cbn [layers].
  by rewrite delete_middle.
Qed.

Lemma add_then_remove_restores_layers_witness :
  layers (LayerCard_remove_onClick 3 (addLayer initialApp)) = defaultLayers.
Proof.
  apply (add_then_remove_restores_layers initialApp). cbn. unfold MAX_LAYERS. lia.
Defined.

Lemma updateNodes_updateAct i a j d st :
  updateAct i a (updateNodes j d st) = updateNodes j d (updateAct i a st).
Proof.
  unfold updateAct, updateNodes. cbn [layers sel]. f_equal.
  apply list_eq. intros k. rewrite !list_lookup_imap.
  destruct (layers st !! k) as [l|]; [|done]. cbn.
  by destruct (k =? i)%nat, (k =? j)%nat.
Qed.

(** The handlers compose as expected: a width change and an activation
    change commute, on the same layer as on different ones; of two
    activation changes of one layer the later one wins; width changes of
    different layers commute. *)
Theorem handlers_compose (i j : nat) (a a' : string) (d d' : Z) (st : AppState) :
  updateAct i a (updateNodes j d st) = updateNodes j d (updateAct i a st)
  ∧ updateAct i a' (updateAct i a st) = updateAct i a' st
  ∧ (i ≠ j → updateNodes i d (updateNodes j d' st) = updateNodes j d' (updateNodes i d st)).
Proof.
  split; [apply updateNodes_updateAct|split].
  - unfold updateAct. cbn [layers sel]. f_equal.
    apply list_eq. intros k. rewrite !list_lookup_imap.
    destruct (layers st !! k) as [l|]; [|done]. cbn.
    by destruct (k =? i)%nat.
  - intros Hne. unfold updateNodes. cbn [layers sel]. f_equal.
    apply list_eq. intros k. rewrite !list_lookup_imap.
    destruct (layers st !! k) as [l|]; [|done]. cbn.
    destruct (Nat.eqb_spec k i), (Nat.eqb_spec k j); try done. lia.
Qed.

Lemma handlers_compose_witness :
  updateNodes 1 2 (updateNodes 2 (-1) initialApp)
  = updateNodes 2 (-1) (updateNodes 1 2 initialApp).
Proof.
  apply (proj2 (proj2 (handlers_compose 1 2 "ReLU" "ReLU" 2 (-1) initialApp))). lia.
Defined.

(** ** The parameter table *)

Lemma explainer_body_length rs : length (rs ≫= ParamExplainer.rows_of) = (2 * length rs)%nat.
Proof. induction rs as [|r rs IH]; [done|]. cbn. rewrite IH. lia. Qed.

Lemma explainer_body_sum rs :
  Zsum (ParamExplainer.count <$> (rs ≫= ParamExplainer.rows_of))
  = Zsum (W <$> rs) + Zsum (B <$> rs).
Proof.
  induction rs as [|r rs IH]; [done|].
  change (W r + (B r + Zsum (ParamExplainer.count <$> (rs ≫= ParamExplainer.rows_of)))
          = W r + Zsum (W <$> rs) + (B r + Zsum (B <$> rs))).
  rewrite IH. lia.
Qed.

Lemma general_formula_rows i ws :
  Zsum (W <$> transition_rows i ws) + Zsum (B <$> transition_rows i ws) = general_formula ws.
Proof.
  revert i. induction ws as [|a [|b ws] IH]; intros i; [done..|].
  rewrite transition_rows_cons2.
  change (a * b + Zsum (W <$> transition_rows (S i) (b :: ws))
          + (b + Zsum (B <$> transition_rows (S i) (b :: ws)))
          = b * (a + 1) + general_formula (b :: ws)).
  rewrite <- (IH (S i)). lia.
Qed.

(** The table of the modal adds up, for every layer list: it has two
    rows per transition, the numbers of its Count column sum to the total
    of its footer, the footer total is the sum of the two subtotals, and
    it equals the general formula printed above the table, the sum of
    [n_l (n_(l-1) + 1)] over the transitions. *)
Theorem explainer_table_adds_up (lrs : list Layer) :
  let t := ParamExplainer.table lrs in
  length (ParamExplainer.body t) = (2 * (length lrs - 1))%nat
  ∧ Zsum (ParamExplainer.count <$> ParamExplainer.body t) = ParamExplainer.totalParameters t
  ∧ ParamExplainer.totalParameters t
    = ParamExplainer.weightsTotal t + ParamExplainer.biasesTotal t
  ∧ ParamExplainer.totalParameters t = general_formula (nodes <$> lrs).
Proof.
  cbv zeta. unfold ParamExplainer.table. rewrite computeParams_closed.
  cbn [ParamExplainer.body ParamExplainer.totalParameters ParamExplainer.weightsTotal
       ParamExplainer.biasesTotal breakdown totalW totalB total].
  split; [|split; [|split]].
  - by rewrite explainer_body_length, transition_rows_length, length_fmap.
  - apply explainer_body_sum.
  - done.
  - apply general_formula_rows.
Qed.

(** ** Bounds on the counts *)

Lemma transition_rows_bounds ws : ∀ i,
  Forall width_ok ws →
  Forall (λ r, 1 ≤ W r ≤ 64 ∧ 1 ≤ B r ≤ 8) (transition_rows i ws)
  ∧ 2 * Z.of_nat (length ws - 1) ≤ general_formula ws ≤ 72 * Z.of_nat (length ws - 1).
Proof.
  induction ws as [|a [|b ws] IH]; intros i Hok; [by split|by split|].
  rewrite transition_rows_cons2.
  apply Forall_cons in Hok as [Ha Hok].
  pose proof Hok as Hok'. apply Forall_cons in Hok' as [Hb _].
  destruct (IH (S i) Hok) as [Hrows Hsum].
  unfold width_ok, MIN_NODES, MAX_NODES in Ha, Hb.
  split.
  - constructor; [cbn; nia|done].
  - change (general_formula (a :: b :: ws)) with (b * (a + 1) + general_formula (b :: ws)).
    replace (Z.of_nat (length (a :: b :: ws) - 1))
      with (1 + Z.of_nat (length (b :: ws) - 1)) by (cbn [length]; lia).
    nia.
Qed.

Lemma UI_run_architecture_ok evs : ∀ st,
  architecture_ok st → architecture_ok (UI_run evs st).
Proof.
  unfold UI_run. induction evs as [|ev evs IH]; intros st Hok; [done|].
  cbn [foldl]. apply IH. by apply UI_handle_architecture_ok.
Qed.

(** Whatever the user does, every weight matrix has between 1 and 64
    entries, every bias vector between 1 and 8, and the network between 4
    and 360 parameters in all. *)
Theorem parameter_counts_bounded (evs : list UIEvent) :
  let r := computeParams (layers (UI_run evs initialApp)) in
  Forall (λ row, 1 ≤ W row ≤ 64 ∧ 1 ≤ B row ≤ 8) (breakdown r)
  ∧ 4 ≤ total r ≤ 360.
Proof.
  cbv zeta.
  destruct (UI_run_architecture_ok evs initialApp initialApp_architecture_ok)
    as [[Hlo Hhi] Hw].
  rewrite computeParams_closed. cbn [breakdown total].
  destruct (transition_rows_bounds (nodes <$> layers (UI_run evs initialApp)) 1 Hw)
    as [Hrows Hsum].
  split; [done|].
  rewrite general_formula_rows.
  rewrite length_fmap in Hsum. unfold layerCount, MAX_LAYERS in *.
  set (n := length (layers (UI_run evs initialApp))) in *.
  destruct Hsum as [Hsum1 Hsum2].
  split; [etrans; [|exact Hsum1]|etrans; [exact Hsum2|]]; lia.
Qed.

(** ** The loss buttons over a whole session *)

Lemma not_two_spec_false K : not_two K = false → K = 2.
Proof. unfold not_two. by destruct (Z.eqb_spec K 2). Qed.

Lemma outputNodes_ok st :
  architecture_ok st → ∃ K, outputNodes st = Some K ∧ 1 ≤ K ≤ 8.
Proof.
  intros [[Hlo _] Hw]. unfold outputNodes.
  destruct (layerCount st) as [|k] eqn:Hn; [lia|].
  destruct (lookup_lt_is_Some_2 (layers st) k) as [l Hl]; [unfold layerCount in Hn; lia|].
  exists (nodes l). rewrite Hl. split; [done|].
  unfold widths in Hw. rewrite Forall_lookup in Hw.
  apply (Hw k). by rewrite list_lookup_fmap, Hl.
Qed.

Lemma LossPanel_effect_enabled K p : isDisabled K (lossKey (LossPanel_effect K p)) = false.
Proof.
  unfold LossPanel_effect. fold (isDisabled K (lossKey p)).
  by destruct (isDisabled K (lossKey p)) eqn:E.
Qed.

Lemma LossPanel_onClick_enabled K key p :
  isDisabled K (lossKey p) = false → isDisabled K (lossKey (LossPanel_onClick K key p)) = false.
Proof.
  intros Hp. unfold LossPanel_onClick. by destruct (isDisabled K key) eqn:E.
Qed.

Lemma Session_handle_ok s ev :
  session_ok s → ∃ s', Session_handle s ev = Some s' ∧ session_ok s'.
Proof.
  intros (Harch & K & HK & HKr & Hen).
  destruct ev as [e|key]; cbn [Session_handle].
  - unfold on_architecture. cbn zeta.
    pose proof (UI_handle_architecture_ok (app s) e Harch) as Harch'.
    destruct (outputNodes_ok _ Harch') as (K' & HK' & HKr').
    rewrite HK'. cbn. eexists. split; [reflexivity|].
    split; [done|]. exists K'. cbn [app panel]. split_and!; [done|lia|lia|].
    apply LossPanel_effect_enabled.
  - unfold on_select. rewrite HK. cbn. eexists. split; [reflexivity|].
    split; [done|]. exists K. cbn [app panel]. split_and!; [done|lia|lia|].
    by apply LossPanel_onClick_enabled.
Qed.

(** Through any sequence of architecture events and clicks on loss
    buttons the page stays well defined: there is an output layer, of width
    [K] between 1 and 8, and the active loss is one whose button is
    enabled at that [K]; in particular Binary CE is active only when the
    output layer has two nodes. *)
Theorem active_loss_always_enabled (evs : list SessionEvent) :
  ∃ s K, Session_run evs initialSession = Some s
         ∧ outputNodes (app s) = Some K
         ∧ 1 ≤ K ≤ 8
         ∧ isDisabled K (lossKey (panel s)) = false
         ∧ (lossKey (panel s) = bce → K = 2).
Proof.
  assert (Hinit : session_ok initialSession).
  { split; [apply initialApp_architecture_ok|]. exists 2. by split_and!. }
  assert (Hrun : ∀ s, session_ok s → ∃ s', Session_run evs s = Some s' ∧ session_ok s').
  { unfold Session_run. induction evs as [|ev evs IH]; intros s Hs; [by exists s|].
    cbn [foldl]. destruct (Session_handle_ok s ev Hs) as (s1 & Hs1 & Hok1).
    cbn. rewrite Hs1. by apply IH. }
  destruct (Hrun _ Hinit) as (s & Hs & _ & K & HK & HKr & Hen).
  exists s, K. split; [done|]. split; [done|]. split; [lia|]. split; [done|].
  intros Hb. unfold isDisabled in Hen. rewrite Hb in Hen. cbn in Hen.
  by apply not_two_spec_false.
Qed.

(** ** The transition cards *)

Lemma pretty_Z_of_nat (n : nat) : pretty (Z.of_nat n) = pretty n.
Proof. destruct n as [|n]; [done|]. cbn. unfold pretty at 2, pretty_nat. done. Qed.

Lemma App_transformCards_lookup st i prev cur :
  layers st !! i = Some prev → layers st !! S i = Some cur →
  App_transformCards st !! i
  = Some (TransformCard.mkProps (Some prev) cur (i + 1)
            (Z.of_nat i =? Z.of_nat (layerCount st) - 2)
            (Z.of_nat i + 1 =? sel st)).
Proof.
  intros Hprev Hcur. unfold App_transformCards.
  rewrite list_lookup_imap, lookup_drop. cbn [Nat.add]. by rewrite Hcur, Hprev.
Qed.

(** The transition cards follow the layer list: there is one card per
    pair of consecutive layers; the card of the transition into layer
    [i + 1] gets the two layers and the number [i + 1], is the last card
    exactly when layer [i + 1] is the output layer and starts open exactly
    when layer [i + 1] is selected; it describes the transition of the
    same number, input width and output width as the row of
    [computeParams]; and the shape of W it prints is the one the layer
    card of layer [i + 1] and the weight matrix print, as the activation
    vectors are those of the layer cards on both sides. *)
Theorem transform_cards_follow_layers (st : AppState) (i : nat) (prev cur : Layer) :
  layers st !! i = Some prev → layers st !! S i = Some cur →
  length (App_transformCards st) = (layerCount st - 1)%nat
  ∧ ∃ p v,
      App_transformCards st !! i = Some p
      ∧ TransformCard.view p = Some v
      ∧ TransformCard.fromLayer p = Some prev
      ∧ TransformCard.toLayer p = cur
      ∧ TransformCard.layerIdx p = S i
      ∧ (TransformCard.isLast p = true ↔ S (S i) = layerCount st)
      ∧ (TransformCard.startOpen p = true ↔ sel st = Z.of_nat (S i))
      ∧ breakdown (computeParams (layers st)) !! i
        = Some (mkRow (TransformCard.layerIdx p) (nodes prev) (nodes cur)
                      (nodes prev * nodes cur) (nodes cur))
      ∧ Some (TransformCard.dimW v)
        = LayerCard_W_tex cur (S i) (prevNodes (layers st) (S i))
      ∧ TransformCard.dimW v = WeightMatrix_header (nodes prev) (nodes cur) (S i)
      ∧ TransformCard.dima v = LayerCard_a_tex cur (S i)
      ∧ TransformCard.dimaPrev v = LayerCard_a_tex prev i.
Proof.
  intros Hprev Hcur. split.
  { unfold App_transformCards, layerCount. by rewrite length_imap, length_drop. }
  eexists _, _. split; [by apply App_transformCards_lookup|].
  replace (i + 1)%nat with (S i) by lia.
  split; [reflexivity|]. cbn [TransformCard.fromLayer TransformCard.toLayer
    TransformCard.layerIdx TransformCard.isLast TransformCard.startOpen
    TransformCard.dimW TransformCard.dima TransformCard.dimaPrev].
  split; [done|]. split; [done|]. split; [done|].
  split; [rewrite Z.eqb_eq; lia|]. split; [rewrite Z.eqb_eq; lia|].
  split.
  { rewrite computeParams_closed. cbn [breakdown].
    apply (transition_rows_lookup _ 1 i (nodes prev) (nodes cur)).
    - by rewrite list_lookup_fmap, Hprev.
    - by rewrite list_lookup_fmap, Hcur. }
  split.
  { unfold LayerCard_W_tex, prevNodes. rewrite Hprev. done. }
  split; [done|]. split; [done|].
  unfold LayerCard_a_tex.
  replace (Z.of_nat (S i) - 1) with (Z.of_nat i) by lia.
  by rewrite pretty_Z_of_nat.
Qed.

Lemma transform_cards_follow_layers_witness :
  ∃ p v,
    App_transformCards initialApp !! 2%nat = Some p
    ∧ TransformCard.view p = Some v
    ∧ TransformCard.isLast p = true
    ∧ TransformCard.dimW v = "W^{(3)} \in \mathbb{R}^{2\times4}".
Proof.
  destruct (transform_cards_follow_layers initialApp 2
              (mkLayer 4 "Tanh") (mkLayer 2 "Softmax") eq_refl eq_refl)
    as (_ & p & v & Hp & Hv & _ & _ & _ & Hlast & _ & _ & _ & HW & _).
  exists p, v. split; [exact Hp|]. split; [exact Hv|].
  split; [by apply Hlast|]. exact HW.
Defined.

(** ** Colours *)



(** ** The drawing of the network *)

Lemma Array_from_length {A : Type} (n : Z) (f : nat → A) :
  length (Array_from n f) = Z.to_nat n.
Proof. unfold Array_from. by rewrite length_fmap, length_seq. Qed.

Lemma Array_from_lookup {A : Type} (n : Z) (f : nat → A) (i : nat) (a : A) :
  Array_from n f !! i = Some a ↔ (i < Z.to_nat n)%nat ∧ a = f i.
Proof.
  unfold Array_from. rewrite list_lookup_fmap. split.
  - intros Hi. destruct (seq 0 (Z.to_nat n) !! i) as [j|] eqn:Hj; [|done].
    apply lookup_seq in Hj as [-> Hlt]. cbn in Hi. by simplify_eq.
  - intros [Hlt ->]. by rewrite lookup_seq_lt.
Qed.

Lemma length_join_imap {A B : Type} (l : list A) : ∀ (g : nat → A → list B) (m : nat),
  (∀ i a, length (g i a) = m) → length (mjoin (imap g l)) = (length l * m)%nat.
Proof.
  induction l as [|a l IH]; intros g m Hg; [done|].
  change (mjoin (imap g (a :: l))) with (g 0%nat a ++ mjoin (imap (g ∘ S) l)).
  rewrite length_app, Hg.
  rewrite (IH (g ∘ S) m) by (intros; apply Hg). cbn [length]. lia.
Qed.

Lemma length_join_fmap {A B : Type} (l : list A) (g : A → list B) (m : nat) :
  (∀ a, length (g a) = m) → length (mjoin (g <$> l)) = (length l * m)%nat.
Proof.
  intros Hg. induction l as [|a l IH]; [done|].
  change (mjoin (g <$> a :: l)) with (g a ++ mjoin (g <$> l)).
  rewrite length_app, Hg, IH. cbn [length]. lia.
Qed.

Section NetworkSVG_facts.
Context {F : Type} (num : Z → F) (fadd fsub fmul fdiv : F → F → F).

Lemma positions_length lrs li count :
  length (NetworkSVG.positions num fmul fdiv lrs li count)
  = Z.to_nat (Z.min count MAX_NODES_SHOWN).
Proof. unfold NetworkSVG.positions. cbv zeta. apply Array_from_length. Qed.

Lemma edge_group_length lrs selectedLayer li layer next :
  length (NetworkSVG.edge_group num fadd fsub fmul fdiv lrs selectedLayer li layer next)
  = (Z.to_nat (Z.min (nodes layer) MAX_NODES_SHOWN)
     * Z.to_nat (Z.min (nodes next) MAX_NODES_SHOWN))%nat.
Proof.
  unfold NetworkSVG.edge_group. cbv zeta.
  rewrite (length_join_imap _ _ (Z.to_nat (Z.min (nodes next) MAX_NODES_SHOWN))).
  - by rewrite positions_length.
  - intros i a. by rewrite length_imap, positions_length.
Qed.

(** The groups of lines, by recursion on the layers that remain
    after a prefix [pre]. *)
Lemma edges_from lrs selectedLayer : ∀ rest pre (g0 : nat → Layer → list (NetworkSVG.Line (F:=F))),
  lrs = pre ++ rest →
  (∀ li layer, g0 li layer
     = match lrs !! (length pre + li + 1)%nat with
       | Some next =>
           NetworkSVG.edge_group num fadd fsub fmul fdiv lrs selectedLayer
             (length pre + li) layer next
       | None => []
       end) →
  Z.of_nat (length (mjoin (imap g0 (take (length rest - 1) rest))))
  = edge_count (nodes <$> rest).
Proof.
  induction rest as [|a [|b rest] IH]; intros pre g0 Hl Hg; [done..|].
  replace (length (a :: b :: rest) - 1)%nat with (S (length (b :: rest) - 1))
    by (cbn [length]; lia).
  change (take (S (length (b :: rest) - 1)) (a :: b :: rest))
    with (a :: take (length (b :: rest) - 1) (b :: rest)).
  change (mjoin (imap g0 (a :: take (length (b :: rest) - 1) (b :: rest))))
    with (g0 0%nat a ++ mjoin (imap (g0 ∘ S) (take (length (b :: rest) - 1) (b :: rest)))).
  rewrite length_app, Hg.
  assert (Hb : lrs !! (length pre + 0 + 1)%nat = Some b).
  { subst lrs. rewrite lookup_app_r by lia.
    by replace (length pre + 0 + 1 - length pre)%nat with 1%nat by lia. }
  rewrite Hb, edge_group_length.
  rewrite Nat2Z.inj_add, Nat2Z.inj_mul.
  rewrite (IH (pre ++ [a]) (g0 ∘ S)).
  - reflexivity.
  - by rewrite <- app_assoc.
  - intros li layer. cbn. rewrite Hg, length_app. cbn [length].
    by replace (length pre + 1 + li)%nat with (length pre + S li)%nat by lia.
Qed.

Lemma edges_total lrs selectedLayer :
  Z.of_nat (length (mjoin (NetworkSVG.edges num fadd fsub fmul fdiv lrs selectedLayer)))
  = edge_count (nodes <$> lrs).
Proof.
  unfold NetworkSVG.edges. by apply (edges_from lrs selectedLayer lrs []).
Qed.

Lemma edge_count_weights ws :
  Forall (λ w, 0 ≤ w) ws →
  edge_count ws ≤ Zsum (W <$> transition_rows 1 ws)
  ∧ (Forall (λ w, w ≤ MAX_NODES_SHOWN) ws →
       edge_count ws = Zsum (W <$> transition_rows 1 ws)).
Proof.
  generalize 1%nat as k.
  induction ws as [|a [|b ws] IH]; intros k Hpos; [done..|].
  rewrite transition_rows_cons2.
  change (edge_count (a :: b :: ws))
    with (Z.of_nat (Z.to_nat (Z.min a MAX_NODES_SHOWN))
          * Z.of_nat (Z.to_nat (Z.min b MAX_NODES_SHOWN)) + edge_count (b :: ws)).
  change (Zsum (W <$> mkRow k a b (a * b) b :: transition_rows (S k) (b :: ws)))
    with (a * b + Zsum (W <$> transition_rows (S k) (b :: ws))).
  apply Forall_cons in Hpos as [Ha Hpos].
  pose proof Hpos as Hpos'. apply Forall_cons in Hpos' as [Hb _].
  destruct (IH (S k) Hpos) as [Hle Heq].
  unfold MAX_NODES_SHOWN in *. split.
  - nia.
  - intros Hsmall. apply Forall_cons in Hsmall as [Ha6 Hsmall].
    pose proof Hsmall as Hsmall'. apply Forall_cons in Hsmall' as [Hb6 _].
    rewrite (Heq Hsmall). rewrite !Z.min_l by lia. lia.
Qed.

(** Of a layer of [count] nodes the graph draws the first six at
    most, and it marks a node as an ellipsis exactly when it is the
    sixth and the layer has more than six. *)
Theorem graph_draws_six_nodes_at_most (lrs : list Layer) (li : nat) (count : Z) :
  let ps := NetworkSVG.positions num fmul fdiv lrs li count in
  length ps = Z.to_nat (Z.min count 6)
  ∧ (length ps ≤ 6)%nat
  ∧ (∀ i p, ps !! i = Some p →
            (NetworkSVG.ellipsis p = true ↔ i = 5%nat ∧ 6 < count)).
Proof.
  cbv zeta. rewrite positions_length. unfold MAX_NODES_SHOWN.
  split; [done|]. split; [lia|].
  intros i p Hp. unfold NetworkSVG.positions in Hp. cbv zeta in Hp.
  apply Array_from_lookup in Hp as [Hlt ->]. cbn [NetworkSVG.ellipsis].
  unfold MAX_NODES_SHOWN. rewrite andb_true_iff, Z.eqb_eq, Z.gtb_lt. lia.
Qed.

(** The graph never draws more lines than the network has weights,
    and when no layer has more than six nodes it draws exactly one line
    per weight: the number of lines is [totalW] of [computeParams]. *)
Theorem graph_lines_are_weights (lrs : list Layer) (selectedLayer : Z) :
  Forall (λ l, 0 ≤ nodes l) lrs →
  let lines := mjoin (NetworkSVG.edges num fadd fsub fmul fdiv lrs selectedLayer) in
  Z.of_nat (length lines) ≤ totalW (computeParams lrs)
  ∧ (Forall (λ l, nodes l ≤ 6) lrs →
       Z.of_nat (length lines) = totalW (computeParams lrs)).
Proof.
  intros Hpos. cbv zeta. rewrite edges_total, computeParams_closed. cbn [totalW].
  assert (Hpos' : Forall (λ w, 0 ≤ w) (nodes <$> lrs)) by by rewrite Forall_fmap.
  destruct (edge_count_weights _ Hpos') as [Hle Heq].
  split; [done|]. intros Hsmall. apply Heq. by rewrite Forall_fmap.
Qed.

End NetworkSVG_facts.

Lemma graph_draws_six_nodes_at_most_witness :
  ∃ p, NetworkSVG.positions (λ z : Z, z) Z.mul Z.div defaultLayers 1 8 !! 5%nat = Some p
       ∧ NetworkSVG.ellipsis p = true.
Proof.
  eexists. split; [reflexivity|].
  apply (proj2 (proj2 (graph_draws_six_nodes_at_most
                         (λ z : Z, z) Z.mul Z.div defaultLayers 1 8)) 5%nat _ eq_refl).
  split; [done|lia].
Defined.

Lemma graph_lines_are_weights_witness :
  Z.of_nat (length (mjoin (NetworkSVG.edges (λ z : Z, z) Z.add Z.sub Z.mul Z.div defaultLayers 1))) = 43.
Proof.
  refine (proj2 (graph_lines_are_weights (λ z : Z, z) Z.add Z.sub Z.mul Z.div defaultLayers 1 _) _);
    repeat constructor; cbn; lia.
Defined.

(** ** The weight matrix *)

Section WeightMatrix_facts.
Context {V : Type} (seedVal : Z → Z → Z → V).

(** For widths of at least one, the grid has [min(nout, 5)] rows of
    [min(nin, 5)] cells; the cell in row [r] and column [c] (from 0)
    shows [seedVal(layerIdx, r, c)]; and an ellipsis is drawn exactly
    when the grid leaves entries of the [nout] by [nin] matrix out. *)
Theorem weight_matrix_grid (nin nout : Z) (layerIdx : nat) :
  1 ≤ nin → 1 ≤ nout →
  let g := WeightMatrix.grid seedVal nin nout layerIdx in
  length (WeightMatrix.rows g) = Z.to_nat (Z.min nout 5)
  ∧ (∀ r row, WeightMatrix.rows g !! r = Some row →
       length row = Z.to_nat (Z.min nin 5)
       ∧ ∀ c cell, row !! c = Some cell →
           WeightMatrix.v cell = seedVal (Z.of_nat layerIdx) (Z.of_nat r) (Z.of_nat c))
  ∧ (WeightMatrix.rowEllipsis g = false ∧ WeightMatrix.bottomEllipsis g = false
     ↔ Z.of_nat (length (mjoin (WeightMatrix.rows g))) = nout * nin).
Proof.
  intros Hnin Hnout. cbv zeta. unfold WeightMatrix.grid. cbv zeta.
  cbn [WeightMatrix.rows WeightMatrix.rowEllipsis WeightMatrix.bottomEllipsis].
  split; [apply Array_from_length|]. split.
  - intros r row Hrow. apply Array_from_lookup in Hrow as [Hr ->].
    split; [apply Array_from_length|].
    intros c cell Hcell. by apply Array_from_lookup in Hcell as [Hc ->].
  - unfold Array_from at 1.
    rewrite (length_join_fmap _ _ (Z.to_nat (Z.min nin 5)))
      by (intros; apply Array_from_length).
    rewrite length_seq, Nat2Z.inj_mul.
    destruct (Z.gtb_spec nin 5), (Z.gtb_spec nout 5); split;
      try (intros [? ?]; discriminate); try nia; done.
Qed.
End WeightMatrix_facts.

Lemma weight_matrix_grid_witness :
  length (WeightMatrix.rows (WeightMatrix.grid (λ _ _ _ : Z, tt) 8 3 2)) = 3%nat.
Proof.
  exact (proj1 (weight_matrix_grid (λ _ _ _ : Z, tt) 8 3 2 ltac:(lia) ltac:(lia))).
Defined.
